(** * quicksnip-snippet-converter: the parser and the category merge

    A shallow embedding of [src/converter.py].  A Python [str] is a sequence
    of Unicode code points; the string methods the converter calls
    ([split], [replace], [strip], [count]) are embedded as functions on such
    sequences, the pydantic models as records, exceptions as the left side
    of a sum. *)

From Stdlib Require Import String Ascii.
From Stdlib Require Import List Bool Arith NArith Lia Permutation.
Import ListNotations.

(** ** Strings *)

Module Str.

(** A code point, and a Python [str]. *)
Definition char := N.
Definition str := list char.

(** A string literal of the source, as a [str]. *)
Definition lit (s : string) : str := map N_of_ascii (list_ascii_of_string s).

Definition nl : char := 10%N.
Definition comma : char := 44%N.
Definition slash : char := 47%N.
Definition hash : char := 35%N.
Definition dot : char := 46%N.

Fixpoint eqb (a b : str) : bool :=
  match a, b with
  | [], [] => true
  | x :: a', y :: b' => N.eqb x y && eqb a' b'
  | _, _ => false
  end.

(** [a.startswith(p)] read backwards: is [p] a prefix of [s]. *)
Fixpoint starts_with (p s : str) : bool :=
  match p, s with
  | [], _ => true
  | _ :: _, [] => false
  | a :: p', b :: s' => N.eqb a b && starts_with p' s'
  end.

(** [str.isspace] on one code point: the code points CPython's
    [_PyUnicode_IsWhitespace] answers true for. *)
Definition isspace (c : char) : bool :=
  ((9 <=? c) && (c <=? 13)
   || (28 <=? c) && (c <=? 32)
   || (c =? 133) || (c =? 160) || (c =? 5760)
   || (8192 <=? c) && (c <=? 8202)
   || (c =? 8232) || (c =? 8233) || (c =? 8239) || (c =? 8287)
   || (c =? 12288))%N.

Fixpoint lstrip (s : str) : str :=
  match s with
  | [] => []
  | c :: s' => if isspace c then lstrip s' else s
  end.

Definition rstrip (s : str) : str := rev (lstrip (rev s)).

(** [s.strip()] with no argument. *)
Definition strip (s : str) : str := rstrip (lstrip s).

(** [s.split(sep)] for a non-empty [sep] (an empty one raises ValueError in
    Python; the converter only passes one-character literals).  The scan goes
    left to right over non-overlapping occurrences; [skip] counts the
    characters of a matched separator still to be dropped. *)
Fixpoint split_go (sep : str) (skip : nat) (s : str) : list str :=
  match s with
  | [] => [[]]
  | c :: s' =>
      match skip with
      | S k => split_go sep k s'
      | O =>
          if starts_with sep s then [] :: split_go sep (length sep - 1) s'
          else match split_go sep 0 s' with
               | seg :: segs => (c :: seg) :: segs
               | [] => [[c]]
               end
      end
  end.

Definition split (sep s : str) : list str := split_go sep 0 s.

(** [s.replace(old, new, count)] for a non-empty [old] and [count >= 0]. *)
Fixpoint replace_go (old new : str) (count skip : nat) (s : str) : str :=
  match s with
  | [] => []
  | c :: s' =>
      match skip with
      | S k => replace_go old new count k s'
      | O =>
          match count with
          | S n =>
              if starts_with old s
              then new ++ replace_go old new n (length old - 1) s'
              else c :: replace_go old new count 0 s'
          | O => c :: replace_go old new 0 0 s'
          end
      end
  end.

Definition replace (old new : str) (count : nat) (s : str) : str :=
  replace_go old new count 0 s.

(** [s.count(sub)] for a non-empty [sub]: non-overlapping occurrences. *)
Fixpoint count_go (sub : str) (skip : nat) (s : str) : nat :=
  match s with
  | [] => 0
  | _ :: s' =>
      match skip with
      | S k => count_go sub k s'
      | O =>
          if starts_with sub s then S (count_go sub (length sub - 1) s')
          else count_go sub 0 s'
      end
  end.

Definition count (sub s : str) : nat := count_go sub 0 s.

(** [sep.join(parts)]. *)
Fixpoint join (sep : str) (parts : list str) : str :=
  match parts with
  | [] => []
  | [p] => p
  | p :: ps => p ++ sep ++ join sep ps
  end.

End Str.

Import Str.

(** ** The models ([Snippet], [Category], [JSONModel]) *)

Record Snippet := mkSnippet {
  title : str;
  description : str;
  code : list str;
  tags : list str;
  author : str
}.

Record Category := mkCategory {
  categoryName : str;
  snippets : list Snippet
}.

(** [JSONModel] is a root model over [list[Category]]. *)
Definition JSONModel := list Category.

(** ** Exceptions *)

Inductive exn :=
| FileNotFoundError
| PermissionError
| IsADirectoryError
| SyntaxError
| ValidationError
| SerializationError.

Definition result (A : Type) := (exn + A)%type.

(** ** The parser *)

Definition format_metadata (line : str) : str :=
  strip (replace [hash] [] 1 (replace [slash; slash] [] 1 line)).

(** [xs.append(x)] *)
Definition append {A} (xs : list A) (x : A) : list A := xs ++ [x].

(** [code_lines[i]]; the line-count check of [parse_code] keeps every index
    the function reads in range. *)
Definition line_at (code_lines : list str) (i : nat) : str := nth i code_lines [].

Definition parse_code (text : str) (category : option Category) : result Category :=
  let code_lines := split [nl] text in
  if length code_lines <? 7 then inl SyntaxError
  else
    let snippet :=
      {| title := format_metadata (line_at code_lines 1);
         description := format_metadata (line_at code_lines 2);
         code := fold_left append (skipn 6 code_lines) [];
         tags := map strip (split [comma] (format_metadata (line_at code_lines 3)));
         author := format_metadata (line_at code_lines 4) |} in
    let category :=
      match category with
      | None => {| categoryName := format_metadata (line_at code_lines 0);
                   snippets := [] |}
      | Some c => c
      end in
    inr {| categoryName := categoryName category;
           snippets := append (snippets category) snippet |}.

(** ** The merge of [save_category_to_json]

    The [for ... else] over [json_content.root]: [Some root'] when the loop
    left through [break] (a category of the same name took the snippets),
    [None] when it ran to its end and the [else] branch is due. *)
Fixpoint merge_loop (root : JSONModel) (category_object : Category)
  : option JSONModel :=
  match root with
  | [] => None
  | category :: rest =>
      if negb (Str.eqb (categoryName category) (categoryName category_object))
      then option_map (cons category) (merge_loop rest category_object)
      else Some ({| categoryName := categoryName category;
                    snippets := fold_left append (snippets category_object)
                                          (snippets category) |} :: rest)
  end.

Definition merge (root : JSONModel) (category_object : Category) : JSONModel :=
  match merge_loop root category_object with
  | Some root' => root'
  | None => append root category_object
  end.


(** ** JSON text

    [model_dump_json] and [model_validate_json] are pydantic's.  They are
    embedded by what they do on the three models of this program: the writer
    prints a document in the indented layout of [model_dump_json(indent=2)],
    the reader parses any JSON text into a tree and then checks the tree
    against the models (an object per model, a JSON string per [str] field,
    an array per list field, every field required, other keys ignored). *)

Module Json.

Definition quote : char := 34%N.
Definition backslash : char := 92%N.
Definition lbracket : char := 91%N.
Definition rbracket : char := 93%N.
Definition lbrace : char := 123%N.
Definition rbrace : char := 125%N.
Definition colon : char := 58%N.
Definition space : char := 32%N.
Definition cr : char := 13%N.

#[warnings="-register-all"]
Inductive value :=
| JNull
| JBool (b : bool)
| JNum (lexeme : str)
| JStr (s : str)
| JArr (items : list value)
| JObj (members : list (str * value)).

(** *** Writing *)

Definition hex_digit (n : N) : char :=
  (if n <? 10 then 48 + n else 87 + n)%N.

(** One character inside a JSON string: the quote, the backslash and the
    control characters are escaped, every other code point is written as it
    is. *)
Definition escape_char (c : char) : str :=
  (if c =? 34 then [backslash; quote]
   else if c =? 92 then [backslash; backslash]
   else if c =? 8 then [backslash; 98]
   else if c =? 9 then [backslash; 116]
   else if c =? 10 then [backslash; 110]
   else if c =? 12 then [backslash; 102]
   else if c =? 13 then [backslash; 114]
   else if c <? 32 then
     [backslash; 117; 48; 48; hex_digit (c / 16); hex_digit (c mod 16)]
   else [c])%N.

Definition dump_str (s : str) : str :=
  quote :: flat_map escape_char s ++ [quote].

Definition INDENT_SIZE : nat := 2.

(** A line break and the indentation of nesting depth [depth]. *)
Definition newline (depth : nat) : str := nl :: repeat space (INDENT_SIZE * depth).

(** The printed items of an array, one per line at depth [depth]. *)
Fixpoint dump_items (depth : nat) (items : list str) : str :=
  match items with
  | [] => []
  | [x] => newline depth ++ x
  | x :: rest => newline depth ++ x ++ comma :: dump_items depth rest
  end.

(** An array standing at depth [depth], its items one level deeper. *)
Definition dump_array (depth : nat) (items : list str) : str :=
  match items with
  | [] => [lbracket; rbracket]
  | _ => lbracket :: dump_items (S depth) items ++ newline depth ++ [rbracket]
  end.

Definition dump_member (member : str * str) : str :=
  dump_str (fst member) ++ colon :: space :: snd member.

Definition dump_object (depth : nat) (members : list (str * str)) : str :=
  match members with
  | [] => [lbrace; rbrace]
  | _ => lbrace :: dump_items (S depth) (map dump_member members)
           ++ newline depth ++ [rbrace]
  end.

Definition dump_snippet (depth : nat) (s : Snippet) : str :=
  dump_object depth
    [(lit "title", dump_str (title s));
     (lit "description", dump_str (description s));
     (lit "code", dump_array (S depth) (map dump_str (code s)));
     (lit "tags", dump_array (S depth) (map dump_str (tags s)));
     (lit "author", dump_str (author s))].

Definition dump_category (depth : nat) (c : Category) : str :=
  dump_object depth
    [(lit "categoryName", dump_str (categoryName c));
     (lit "snippets",
      dump_array (S depth) (map (dump_snippet (S (S depth))) (snippets c)))].

Definition dump_document (root : JSONModel) : str :=
  dump_array 0 (map (dump_category 1) root).

(** A [str] can be written when it is Unicode text: each code point a
    scalar value (no surrogate, none past U+10FFFF). *)
Definition is_scalar (c : char) : bool :=
  ((c <? 55296) || ((57343 <? c) && (c <=? 1114111)))%N.

Definition text_ok (s : str) : bool := forallb is_scalar s.

Definition snippet_ok (s : Snippet) : bool :=
  text_ok (title s) && text_ok (description s) && forallb text_ok (code s)
  && forallb text_ok (tags s) && text_ok (author s).

Definition category_ok (c : Category) : bool :=
  text_ok (categoryName c) && forallb snippet_ok (snippets c).

Definition document_ok (root : JSONModel) : bool := forallb category_ok root.

(** [json_content.model_dump_json(indent=INDENT_SIZE)] *)
Definition model_dump_json (root : JSONModel) : result str :=
  if document_ok root then inr (dump_document root) else inl SerializationError.

(** *** Reading *)

Definition is_ws (c : char) : bool :=
  ((c =? 32) || (c =? 9) || (c =? 10) || (c =? 13))%N.

Fixpoint skip_ws (s : str) : str :=
  match s with
  | [] => []
  | c :: s' => if is_ws c then skip_ws s' else s
  end.

Definition hex_value (c : char) : option N :=
  (if (48 <=? c) && (c <=? 57) then Some (c - 48)
   else if (97 <=? c) && (c <=? 102) then Some (c - 87)
   else if (65 <=? c) && (c <=? 70) then Some (c - 55)
   else None)%N.

Definition parse_hex4 (s : str) : option (N * str) :=
  match s with
  | a :: b :: c :: d :: rest =>
      match hex_value a, hex_value b, hex_value c, hex_value d with
      | Some x, Some y, Some z, Some w =>
          Some ((((x * 16 + y) * 16 + z) * 16 + w)%N, rest)
      | _, _, _, _ => None
      end
  | _ => None
  end.

(** The character a one-letter escape stands for. *)
Definition unescape (e : char) : option char :=
  (if e =? 34 then Some 34
   else if e =? 92 then Some 92
   else if e =? 47 then Some 47
   else if e =? 98 then Some 8
   else if e =? 102 then Some 12
   else if e =? 110 then Some 10
   else if e =? 114 then Some 13
   else if e =? 116 then Some 9
   else None)%N.

Definition is_high_surrogate (n : N) : bool := ((55296 <=? n) && (n <=? 56319))%N.
Definition is_low_surrogate (n : N) : bool := ((56320 <=? n) && (n <=? 57343))%N.

Definition cons_result (c : char) (r : option (str * str)) : option (str * str) :=
  match r with
  | Some (x, rest) => Some (c :: x, rest)
  | None => None
  end.

(** The characters of a string after its opening quote, up to the closing
    one: [(characters, text after the closing quote)].  Each step takes at
    least one character, so the length of the text is fuel enough. *)
Fixpoint parse_chars (fuel : nat) (s : str) : option (str * str) :=
  match fuel with
  | O => None
  | S fuel' =>
      match s with
      | [] => None
      | c :: s1 =>
          if (c =? 34)%N then Some ([], s1)
          else if (c =? 92)%N then
            match s1 with
            | [] => None
            | e :: s2 =>
                if (e =? 117)%N then
                  match parse_hex4 s2 with
                  | None => None
                  | Some (n, s3) =>
                      if is_high_surrogate n then
                        match s3 with
                        | b :: u :: s4 =>
                            if ((b =? 92) && (u =? 117))%N then
                              match parse_hex4 s4 with
                              | None => None
                              | Some (m, s5) =>
                                  if is_low_surrogate m
                                  then cons_result
                                         (65536 + (n - 55296) * 1024 + (m - 56320))%N
                                         (parse_chars fuel' s5)
                                  else None
                              end
                            else None
                        | _ => None
                        end
                      else if is_low_surrogate n then None
                      else cons_result n (parse_chars fuel' s3)
                  end
                else
                  match unescape e with
                  | Some c' => cons_result c' (parse_chars fuel' s2)
                  | None => None
                  end
            end
          else if (c <? 32)%N then None
          else cons_result c (parse_chars fuel' s1)
      end
  end.

Definition parse_string (s : str) : option (str * str) :=
  parse_chars (length s) s.

Definition is_digit (c : char) : bool := ((48 <=? c) && (c <=? 57))%N.

(** The longest run of digits [s] starts with, and what follows it. *)
Fixpoint span_digits (s : str) : str * str :=
  match s with
  | [] => ([], [])
  | c :: s' =>
      if is_digit c then let (ds, rest) := span_digits s' in (c :: ds, rest)
      else ([], s)
  end.

(** A number, as the text that writes it: an optional minus, an integer
    part without leading zero, an optional fraction, an optional exponent;
    also [NaN], [Infinity] and [-Infinity], which the reader lets through. *)
Definition parse_number (s : str) : option (str * str) :=
  let (sign, s0) :=
    match s with
    | c :: s' => if (c =? 45)%N then ([c], s') else ([], s)
    | [] => ([], s)
    end in
  if starts_with (lit "Infinity") s0
  then Some (sign ++ lit "Infinity", skipn 8 s0)
  else if starts_with (lit "NaN") s then Some (lit "NaN", skipn 3 s)
  else
    let (int_part, s1) := span_digits s0 in
    match int_part with
    | [] => None
    | d :: ds =>
        if (d =? 48)%N && negb (length ds =? 0) then None
        else
          let frac :=
            match s1 with
            | c :: s2 =>
                if (c =? 46)%N then
                  let (fs, s3) := span_digits s2 in
                  match fs with
                  | [] => None
                  | _ => Some (c :: fs, s3)
                  end
                else Some ([], s1)
            | [] => Some ([], s1)
            end in
          match frac with
          | None => None
          | Some (frac_part, s4) =>
              let expo :=
                match s4 with
                | c :: s5 =>
                    if ((c =? 101) || (c =? 69))%N then
                      let (esign, s6) :=
                        match s5 with
                        | g :: s5' =>
                            if ((g =? 43) || (g =? 45))%N then ([g], s5')
                            else ([], s5)
                        | [] => ([], s5)
                        end in
                      let (es, s7) := span_digits s6 in
                      match es with
                      | [] => None
                      | _ => Some (c :: esign ++ es, s7)
                      end
                    else Some ([], s4)
                | [] => Some ([], s4)
                end in
              match expo with
              | None => None
              | Some (exp_part, s8) =>
                  Some (sign ++ int_part ++ frac_part ++ exp_part, s8)
              end
          end
    end.

(** A value, the items of an array after its bracket, the members of an
    object after its brace: [(result, text after it)].  Every call goes one
    unit of fuel down. *)
Fixpoint parse_value (fuel : nat) (s : str) : option (value * str) :=
  match fuel with
  | O => None
  | S fuel' =>
      match skip_ws s with
      | [] => None
      | c :: s1 =>
          if (c =? 34)%N then
            match parse_string s1 with
            | Some (x, r) => Some (JStr x, r)
            | None => None
            end
          else if (c =? 91)%N then
            match skip_ws s1 with
            | [] => None
            | c2 :: s2 =>
                if (c2 =? 93)%N then Some (JArr [], s2)
                else match parse_items fuel' s1 with
                     | Some (vs, r) => Some (JArr vs, r)
                     | None => None
                     end
            end
          else if (c =? 123)%N then
            match skip_ws s1 with
            | [] => None
            | c2 :: s2 =>
                if (c2 =? 125)%N then Some (JObj [], s2)
                else match parse_members fuel' s1 with
                     | Some (ms, r) => Some (JObj ms, r)
                     | None => None
                     end
            end
          else if starts_with (lit "true") (c :: s1)
          then Some (JBool true, skipn 4 (c :: s1))
          else if starts_with (lit "false") (c :: s1)
          then Some (JBool false, skipn 5 (c :: s1))
          else if starts_with (lit "null") (c :: s1)
          then Some (JNull, skipn 4 (c :: s1))
          else match parse_number (c :: s1) with
               | Some (lexeme, r) => Some (JNum lexeme, r)
               | None => None
               end
      end
  end
with parse_items (fuel : nat) (s : str) : option (list value * str) :=
  match fuel with
  | O => None
  | S fuel' =>
      match parse_value fuel' s with
      | None => None
      | Some (v, r) =>
          match skip_ws r with
          | [] => None
          | c :: r1 =>
              if (c =? 44)%N then
                match parse_items fuel' r1 with
                | Some (vs, r2) => Some (v :: vs, r2)
                | None => None
                end
              else if (c =? 93)%N then Some ([v], r1)
              else None
          end
      end
  end
with parse_members (fuel : nat) (s : str) : option (list (str * value) * str) :=
  match fuel with
  | O => None
  | S fuel' =>
      match skip_ws s with
      | [] => None
      | q :: s1 =>
          if (q =? 34)%N then
            match parse_string s1 with
            | None => None
            | Some (key, r) =>
                match skip_ws r with
                | [] => None
                | c :: r1 =>
                    if (c =? 58)%N then
                      match parse_value fuel' r1 with
                      | None => None
                      | Some (v, r2) =>
                          match skip_ws r2 with
                          | [] => None
                          | d :: r3 =>
                              if (d =? 44)%N then
                                match parse_members fuel' r3 with
                                | Some (ms, r4) => Some ((key, v) :: ms, r4)
                                | None => None
                                end
                              else if (d =? 125)%N then Some ([(key, v)], r3)
                              else None
                          end
                      end
                    else None
                end
            end
          else None
      end
  end.

(** A whole text: one value, blanks around it, nothing else. *)
Definition parse_json (text : str) : option value :=
  match parse_value (S (length text)) text with
  | Some (v, r) => match skip_ws r with [] => Some v | _ :: _ => None end
  | None => None
  end.

(** *** Checking a tree against the models *)

(** The value of a key of an object; of a key given twice, the last. *)
Fixpoint lookup (key : str) (members : list (str * value)) : option value :=
  match members with
  | [] => None
  | (k, v) :: rest =>
      match lookup key rest with
      | Some v' => Some v'
      | None => if Str.eqb k key then Some v else None
      end
  end.

Fixpoint traverse {A B} (f : A -> option B) (l : list A) : option (list B) :=
  match l with
  | [] => Some []
  | x :: l' =>
      match f x, traverse f l' with
      | Some y, Some ys => Some (y :: ys)
      | _, _ => None
      end
  end.

Definition as_str (v : value) : option str :=
  match v with JStr s => Some s | _ => None end.

Definition as_list {A} (item : value -> option A) (v : value) : option (list A) :=
  match v with JArr items => traverse item items | _ => None end.

(** A field of a model: the key must be there and its value must check. *)
Definition field {A} (check : value -> option A) (key : str)
  (members : list (str * value)) : option A :=
  match lookup key members with
  | Some v => check v
  | None => None
  end.

Definition as_snippet (v : value) : option Snippet :=
  match v with
  | JObj m =>
      match field as_str (lit "title") m, field as_str (lit "description") m,
            field (as_list as_str) (lit "code") m,
            field (as_list as_str) (lit "tags") m,
            field as_str (lit "author") m with
      | Some t, Some d, Some c, Some g, Some a =>
          Some {| title := t; description := d; code := c; tags := g; author := a |}
      | _, _, _, _, _ => None
      end
  | _ => None
  end.

Definition as_category (v : value) : option Category :=
  match v with
  | JObj m =>
      match field as_str (lit "categoryName") m,
            field (as_list as_snippet) (lit "snippets") m with
      | Some n, Some ss => Some {| categoryName := n; snippets := ss |}
      | _, _ => None
      end
  | _ => None
  end.

(** [JSONModel.model_validate_json(text)] *)
Definition model_validate_json (text : str) : result JSONModel :=
  match parse_json text with
  | None => inl ValidationError
  | Some v =>
      match as_list as_category v with
      | Some root => inr root
      | None => inl ValidationError
      end
  end.

End Json.

Import Json.

(** ** Files

    The part of the file system the converter touches: a path names nothing,
    a directory, or a regular file with its access rights and the text it
    holds.  Commands read and change it and may raise. *)

Inductive node :=
| Directory
| File (readable writable : bool) (content : str).

Definition filesystem := str -> option node.

Definition update (fs : filesystem) (path : str) (n : node) : filesystem :=
  fun p => if Str.eqb p path then Some n else fs p.

Definition M (A : Type) := filesystem -> result A * filesystem.

Definition ret {A} (x : A) : M A := fun fs => (inr x, fs).

Definition raise {A} (e : exn) : M A := fun fs => (inl e, fs).

Definition bind {A B} (m : M A) (k : A -> M B) : M B :=
  fun fs =>
    match m fs with
    | (inr x, fs') => k x fs'
    | (inl e, fs') => (inl e, fs')
    end.

Notation "x <- m ;; k" := (bind m (fun x => k))
  (at level 61, m at next level, right associativity).

Definition lift {A} (r : result A) : M A := fun fs => (r, fs).

(** [os.path.exists(p) and os.path.isfile(p)] *)
Definition exists_and_isfile (path : str) : M bool :=
  fun fs => (inr match fs path with Some (File _ _ _) => true | _ => false end, fs).

(** [os.access(p, os.R_OK)] *)
Definition access_R_OK (path : str) : M bool :=
  fun fs => (inr match fs path with
                 | Some (File readable _ _) => readable
                 | Some Directory => true
                 | None => false
                 end, fs).

(** What text mode reading makes of line ends: [\r\n] and a lone [\r]
    become [\n]. *)
Fixpoint universal_newlines (s : str) : str :=
  match s with
  | [] => []
  | c :: s' =>
      if (c =? 13)%N then
        nl :: match s' with
              | d :: s'' =>
                  if (d =? 10)%N then universal_newlines s''
                  else universal_newlines s'
              | [] => []
              end
      else c :: universal_newlines s'
  end.

(** [with open(path, "r", encoding="UTF-8") as f: f.read()] *)
Definition read_text (path : str) : M str :=
  fun fs =>
    match fs path with
    | Some (File true _ content) => (inr (universal_newlines content), fs)
    | Some (File false _ _) => (inl PermissionError, fs)
    | Some Directory => (inl IsADirectoryError, fs)
    | None => (inl FileNotFoundError, fs)
    end.

(** [with open(path, "w", encoding="UTF-8") as f: f.write(text)] *)
Definition write_text (path : str) (text : str) : M unit :=
  fun fs =>
    match fs path with
    | None => (inr tt, update fs path (File true true text))
    | Some (File readable true _) => (inr tt, update fs path (File readable true text))
    | Some (File _ false _) => (inl PermissionError, fs)
    | Some Directory => (inl IsADirectoryError, fs)
    end.

(** ** The converter's commands *)

Definition DEFAULT_LANGUAGE : str := lit "python".

Definition RECOGNIZED_LANGUAGES : list (str * str) :=
  [(lit "py", lit "python"); (lit "js", lit "javascript")].

(** [d.get(key, None)] *)
Fixpoint dict_get (d : list (str * str)) (key : str) : option str :=
  match d with
  | [] => None
  | (k, v) :: d' => if Str.eqb k key then Some v else dict_get d' key
  end.

Definition get_code_lang (file_path : str) : option str :=
  let file_path :=
    if count [slash] file_path =? 0 then lit "./" ++ file_path else file_path in
  let file_name := last (split [slash] file_path) [] in
  if count [dot] file_path =? 0 then None
  else
    let file_extension := last (split [dot] file_name) [] in
    dict_get RECOGNIZED_LANGUAGES file_extension.

Definition get_file_content (file_path : str) : M str :=
  is_file <- exists_and_isfile file_path ;;
  if negb is_file then raise FileNotFoundError
  else
    readable <- access_R_OK file_path ;;
    if negb readable then raise PermissionError
    else read_text file_path.

Definition save_category_to_json (category_object : Category) (lang : str) : M unit :=
  let output_filename := lang ++ lit ".json" in
  is_file <- exists_and_isfile output_filename ;;
  json_content <-
    (if is_file then
       text <- read_text output_filename ;;
       root <- lift (model_validate_json text) ;;
       ret (merge root category_object)
     else ret [category_object]) ;;
  dump_content <- lift (model_dump_json json_content) ;;
  write_text output_filename dump_content.

(** What [run] prints. *)
Inductive message :=
| Usage
| Warning
| Printed (e : exn).

(** The language of [run]: the one the file name tells, else the one given
    on the command line, else the default, with a warning. *)
Definition resolve_code_lang (argv : list str) : list message * str :=
  match get_code_lang (nth 1 argv []) with
  | Some code_lang => ([], code_lang)
  | None =>
      if length argv <? 3 then ([Warning], DEFAULT_LANGUAGE)
      else ([], nth 2 argv [])
  end.

Section Run.

(** [str.lower], by the case mapping of the Unicode database. *)
Variable lower : str -> str.

(** [run]: what is printed and the file system it leaves. *)
Definition run (argv : list str) (fs : filesystem) : list message * filesystem :=
  if length argv <? 2 then ([Usage], fs)
  else
    match get_file_content (nth 1 argv []) fs with
    | (inl e, fs1) => ([Printed e], fs1)
    | (inr content, fs1) =>
        let (warnings, code_lang) := resolve_code_lang argv in
        match parse_code content None with
        | inl e => (warnings ++ [Printed e], fs1)
        | inr converted_code_category =>
            match save_category_to_json converted_code_category
                    (lower code_lang) fs1 with
            | (inl e, fs2) => (warnings ++ [Printed e], fs2)
            | (inr _, fs2) => (warnings, fs2)
            end
        end
    end.

End Run.

(** Lower case for the letters A to Z, other characters kept: the case
    mapping on ASCII text. *)
Definition ascii_lower (s : str) : str :=
  map (fun c => if ((65 <=? c) && (c <=? 90))%N then (c + 32)%N else c) s.

(** ** Specification-side notions

    What the string operations are meant to compute, said without reference
    to how they scan: used to state the properties below. *)

(** [r] is [s] without its leftmost occurrence of [p], or [s] itself when [p]
    does not occur in it. *)
Definition removes_first (p s r : str) : Prop :=
  ((forall a b, s <> a ++ p ++ b) /\ r = s)
  \/ (exists a b, s = a ++ p ++ b
                /\ (forall a' b', s = a' ++ p ++ b' -> length a <= length a')
                /\ r = a ++ b).

(** [s] neither starts nor ends with a whitespace character. *)
Definition trimmed (s : str) : Prop :=
  match s with [] => True | c :: _ => isspace c = false end
  /\ match rev s with [] => True | c :: _ => isspace c = false end.

(** [r] is [s] without its leading and trailing whitespace. *)
Definition trims_to (s r : str) : Prop :=
  exists a b, s = a ++ r ++ b
              /\ forallb isspace a = true /\ forallb isspace b = true
              /\ trimmed r.

(** What [format_metadata] makes of a line, step by step. *)
Definition metadata_of (line value : str) : Prop :=
  exists a b, removes_first [slash; slash] line a
              /\ removes_first [hash] a b
              /\ trims_to b value.

(** The reading of the specification's text: a comment marker is removed
    only where it starts the line, one at most, and the rest is trimmed. *)
Definition strip_leading_marker (line : str) : str :=
  if starts_with [slash; slash] line then skipn 2 line
  else if starts_with [hash] line then skipn 1 line
  else line.

Definition format_metadata_spec (line : str) : str :=
  strip (strip_leading_marker line).

(** The uniqueness invariant of a document. *)
Definition unique_names (root : JSONModel) : Prop :=
  NoDup (map categoryName root).

(** The scenario of the specification, and variations on it used as
    concrete inputs. *)
Definition scenario_lines : list str :=
  [lit "Math"; lit "Add Two Numbers"; lit "Returns the sum of two integers";
   lit "math, arithmetic"; lit "Jane"; lit "";
   lit "def add(a, b):"; lit "    return a + b"].

Definition scenario_text : str := join [nl] scenario_lines.

(** An input whose tag line is the one the specification tests. *)
Definition tags_text : str :=
  join [nl] [lit "Text"; lit "Tag parsing"; lit "Splits at commas";
             lit "a, b ,c"; lit "Jane"; lit ""; lit "pass"].

(** An input whose title carries a [#] that is no comment marker. *)
Definition marker_text : str :=
  join [nl] [lit "Languages"; lit "C# notes"; lit "Notes on a language";
             lit "notes"; lit "Jane"; lit ""; lit "pass"].

(** Six lines, each with visible content, closed by a newline. *)
Definition six_lines_text : str :=
  join [nl] [lit "Math"; lit "Add"; lit "Sum"; lit "math"; lit "Jane"; lit "x = 1"]
  ++ [nl].

(** A document with one category and one snippet in it, and the snippet and
    category the scenario text parses to. *)
Definition prior_snippet : Snippet :=
  {| title := lit "Square"; description := lit "Squares a number";
     code := [lit "def sq(x):"; lit "    return x * x"];
     tags := [lit "math"]; author := lit "Ann" |}.

Definition scenario_snippet : Snippet :=
  {| title := lit "Add Two Numbers";
     description := lit "Returns the sum of two integers";
     code := [lit "def add(a, b):"; lit "    return a + b"];
     tags := [lit "math"; lit "arithmetic"];
     author := lit "Jane" |}.

Definition scenario_category : Category :=
  {| categoryName := lit "Math"; snippets := [scenario_snippet] |}.

Definition math_document : JSONModel :=
  [{| categoryName := lit "Text"; snippets := [] |};
   {| categoryName := lit "Math"; snippets := [prior_snippet] |}].

(** The tree a document is written as. *)
Definition tree_of_strs (l : list str) : value := JArr (map JStr l).

Definition tree_of_snippet (s : Snippet) : value :=
  JObj [(lit "title", JStr (title s));
        (lit "description", JStr (description s));
        (lit "code", tree_of_strs (code s));
        (lit "tags", tree_of_strs (tags s));
        (lit "author", JStr (author s))].

Definition tree_of_category (c : Category) : value :=
  JObj [(lit "categoryName", JStr (categoryName c));
        (lit "snippets", JArr (map tree_of_snippet (snippets c)))].

Definition tree_of_document (root : JSONModel) : value :=
  JArr (map tree_of_category root).

(** The printed text [x] reads back as the tree [v], whatever follows it,
    with no more fuel than its length. *)
Definition parses (x : str) (v : value) : Prop :=
  forall fuel rest,
    length x <= fuel -> parse_value fuel (x ++ rest) = Some (v, rest).

(** A printed member reads back as a member of the tree: the same key, and
    a value that reads back. *)
Definition member_parses (m : str * str) (kv : str * value) : Prop :=
  fst kv = fst m /\ parses (snd m) (snd kv).

(** No carriage return in [s]. *)
Definition no_cr (s : str) : bool := forallb (fun c => negb (c =? 13)%N) s.

(** A document with characters that need escaping, an empty string, empty
    lists and a code point outside the basic plane. *)
Definition escapes_document : JSONModel :=
  [{| categoryName := [34; 92; 8; 9; 10; 12; 13; 1; 31; 127; 233; 128512]%N;
      snippets := [prior_snippet;
                   {| title := []; description := lit "a/b"; code := [];
                      tags := [[]]; author := lit "{[,]}:" |}] |};
   {| categoryName := lit "Empty"; snippets := [] |}].

(** Command lines and file systems for [run]. *)
Definition scenario_argv : list str := [lit "converter.py"; lit "snippet.py"].

Definition files (input : str) (output : option str) : filesystem :=
  fun p =>
    if Str.eqb p (lit "snippet.py") then Some (File true true input)
    else if Str.eqb p (lit "python.json") then
      match output with
      | Some text => Some (File true true text)
      | None => None
      end
    else None.

(** Every character of every string of a snippet, of a category, satisfies
    [P]. *)
Definition snippet_all (P : char -> Prop) (s : Snippet) : Prop :=
  Forall P (title s) /\ Forall P (description s)
  /\ Forall (Forall P) (code s) /\ Forall (Forall P) (tags s)
  /\ Forall P (author s).

Definition category_all (P : char -> Prop) (c : Category) : Prop :=
  Forall P (categoryName c) /\ Forall (snippet_all P) (snippets c).

(** Some category of the document has the name. *)
Definition has_name (name : str) (root : JSONModel) : Prop :=
  In name (map categoryName root).

(** The output file of a language. *)
Definition output_of (lang : str) : str := lang ++ lit ".json".

(** A text with Windows line ends. *)
Definition crlf_text : str :=
  join [cr; nl] scenario_lines.

(** The input file of the scenario beside an arbitrary node under the name
    of the output file. *)
Definition beside (n : node) : filesystem :=
  fun p =>
    if Str.eqb p (lit "snippet.py") then Some (File true true scenario_text)
    else if Str.eqb p (lit "python.json") then Some n
    else None.

(** A file system with one file, whose name tells no language. *)
Definition notes_files : filesystem :=
  fun p =>
    if Str.eqb p (lit "notes.txt") then Some (File true false scenario_text)
    else None.

(** * Properties *)

(** ** Strings *)

Lemma eqb_eq (a b : str) : Str.eqb a b = true <-> a = b.
Proof.
  revert b; induction a as [|x a IH]; intros [|y b]; simpl; split;
    try congruence; try reflexivity.
  - intros H. apply andb_true_iff in H as [H1 H2].
    apply N.eqb_eq in H1. apply IH in H2. congruence.
  - intros H. injection H as -> ->. rewrite N.eqb_refl. simpl. now apply IH.
Qed.

Lemma eqb_neq (a b : str) : Str.eqb a b = false <-> a <> b.
Proof.
  rewrite <- eqb_eq. destruct (Str.eqb a b); split; congruence.
Qed.

Lemma fold_append {A} (xs acc : list A) : fold_left append xs acc = acc ++ xs.
Proof.
  revert acc; induction xs as [|x xs IH]; intros acc; simpl.
  - now rewrite app_nil_r.
  - rewrite IH. unfold append. now rewrite <- app_assoc.
Qed.

(** Splitting at a one-character separator, one character at a time. *)
Lemma split_cons (c x : char) (s : str) :
  split [c] (x :: s) =
  if N.eqb c x then [] :: split [c] s
  else match split [c] s with
       | seg :: segs => (x :: seg) :: segs
       | [] => [[x]]
       end.
Proof.
  unfold split. simpl. destruct (N.eqb c x); reflexivity.
Qed.

Lemma split_nil (c : char) : split [c] [] = [[]].
Proof. reflexivity. Qed.

Lemma split_not_nil (c : char) (s : str) : split [c] s <> [].
Proof.
  induction s as [|x s IH]; [discriminate|].
  rewrite split_cons. destruct (N.eqb c x); [discriminate|].
  destruct (split [c] s); discriminate.
Qed.

(** The segments hold no separator, and joining them gives the text back:
    nothing of the text is dropped or altered by the split. *)
Lemma split_no_sep (c : char) (s : str) :
  Forall (fun seg => ~ In c seg) (split [c] s).
Proof.
  induction s as [|x s IH]; [repeat constructor; auto|].
  rewrite split_cons. destruct (N.eqb c x) eqn:E.
  - constructor; auto.
  - apply N.eqb_neq in E. destruct (split [c] s) as [|seg segs].
    + repeat constructor. intros [H|[]]; congruence.
    + inversion IH; subst. constructor; auto. intros [H|H]; [congruence|auto].
Qed.

Lemma join_split (c : char) (s : str) : join [c] (split [c] s) = s.
Proof.
  induction s as [|x s IH]; [reflexivity|].
  rewrite split_cons. destruct (N.eqb c x) eqn:E.
  - apply N.eqb_eq in E; subst x.
    pose proof (split_not_nil c s) as Hn.
    destruct (split [c] s) as [|seg segs]; [congruence|].
    change (join [c] ([] :: seg :: segs)) with (c :: join [c] (seg :: segs)).
    now rewrite IH.
  - pose proof (split_not_nil c s) as Hn.
    destruct (split [c] s) as [|seg segs]; [congruence|].
    destruct segs as [|seg' segs]; simpl in *; now rewrite IH.
Qed.

Lemma split_length (c : char) (s : str) :
  length (split [c] s) = S (count_occ N.eq_dec s c).
Proof.
  induction s as [|x s IH]; [reflexivity|].
  rewrite split_cons. simpl count_occ.
  destruct (N.eqb c x) eqn:E.
  - apply N.eqb_eq in E. destruct (N.eq_dec x c); [|congruence]. simpl. now rewrite IH.
  - apply N.eqb_neq in E. destruct (N.eq_dec x c); [congruence|].
    rewrite <- IH. pose proof (split_not_nil c s).
    destruct (split [c] s); [congruence|reflexivity].
Qed.

(** A separator-free head is the first segment. *)
Lemma split_app_sep (c : char) (a b : str) :
  ~ In c a -> split [c] (a ++ c :: b) = a :: split [c] b.
Proof.
  induction a as [|x a IH]; intros Hn.
  - simpl app. rewrite split_cons, N.eqb_refl. reflexivity.
  - simpl app. rewrite split_cons.
    destruct (N.eqb c x) eqn:E.
    + apply N.eqb_eq in E. exfalso. apply Hn. now left.
    + rewrite IH; [reflexivity|]. intros H. apply Hn. now right.
Qed.

Lemma split_no_sep_id (c : char) (a : str) : ~ In c a -> split [c] a = [a].
Proof.
  induction a as [|x a IH]; intros Hn; [reflexivity|].
  rewrite split_cons. destruct (N.eqb c x) eqn:E.
  - apply N.eqb_eq in E. exfalso. apply Hn. now left.
  - rewrite IH; [reflexivity|]. intros H. apply Hn. now right.
Qed.

(** [split] undoes [join] on separator-free parts. *)
Lemma split_join (c : char) (parts : list str) :
  parts <> [] -> Forall (fun seg => ~ In c seg) parts ->
  split [c] (join [c] parts) = parts.
Proof.
  induction parts as [|p ps IH]; [congruence|]. intros _ HF.
  inversion HF as [|? ? Hp Hps]; subst.
  destruct ps as [|q ps].
  - simpl. now apply split_no_sep_id.
  - change (join [c] (p :: q :: ps)) with (p ++ c :: join [c] (q :: ps)).
    rewrite split_app_sep by assumption. rewrite IH; [reflexivity|discriminate|assumption].
Qed.

(** A final separator opens one more, empty, segment. *)
Lemma split_snoc_sep (c : char) (s : str) :
  split [c] (s ++ [c]) = split [c] s ++ [[]].
Proof.
  induction s as [|x s IH].
  - simpl app. rewrite split_cons, N.eqb_refl. reflexivity.
  - simpl app. rewrite !split_cons, IH.
    destruct (N.eqb c x); [reflexivity|].
    pose proof (split_not_nil c s).
    destruct (split [c] s); [congruence|reflexivity].
Qed.

(** ** [strip] *)

Lemma lstrip_spec (s : str) :
  exists a, s = a ++ lstrip s /\ forallb isspace a = true
            /\ match lstrip s with [] => True | c :: _ => isspace c = false end.
Proof.
  induction s as [|c s (a & Ha & Hsp & Hhd)].
  - exists []. repeat split.
  - simpl. destruct (isspace c) eqn:E.
    + exists (c :: a). simpl. rewrite E, Hsp. repeat split; [congruence|assumption].
    + exists []. repeat split. assumption.
Qed.

Lemma forallb_rev {A} (f : A -> bool) (l : list A) :
  forallb f (rev l) = forallb f l.
Proof.
  induction l as [|x l IH]; [reflexivity|].
  simpl. rewrite forallb_app, IH. simpl. rewrite andb_true_r. apply andb_comm.
Qed.

Lemma rstrip_spec (s : str) :
  exists b, s = rstrip s ++ b /\ forallb isspace b = true
            /\ match rev (rstrip s) with [] => True | c :: _ => isspace c = false end.
Proof.
  unfold rstrip. destruct (lstrip_spec (rev s)) as (a & Ha & Hsp & Hhd).
  exists (rev a). rewrite rev_involutive. repeat split.
  - rewrite <- rev_app_distr, <- Ha. now rewrite rev_involutive.
  - now rewrite forallb_rev.
  - assumption.
Qed.

(** Dropping trailing whitespace leaves the first character in place, unless
    nothing is left. *)
Lemma rstrip_head (s : str) :
  match s with [] => True | c :: _ => isspace c = false end ->
  match rstrip s with [] => True | c :: _ => isspace c = false end.
Proof.
  intros Hs. destruct (rstrip_spec s) as (b & Hb & _ & _).
  destruct (rstrip s) as [|c r]; [exact I|].
  rewrite Hb in Hs. exact Hs.
Qed.

Lemma strip_spec (s : str) : trims_to s (strip s).
Proof.
  unfold strip. destruct (lstrip_spec s) as (a & Ha & Hsa & Hhd).
  destruct (rstrip_spec (lstrip s)) as (b & Hb & Hsb & Htl).
  exists a, b. repeat split; try assumption.
  - now rewrite <- Hb.
  - now apply rstrip_head.
Qed.

(** Whitespace before the first non-blank character is determined. *)
Lemma space_prefix_unique (a a' : str) (x x' : char) (t t' : str) :
  forallb isspace a = true -> forallb isspace a' = true ->
  isspace x = false -> isspace x' = false ->
  a ++ x :: t = a' ++ x' :: t' -> a = a' /\ x :: t = x' :: t'.
Proof.
  revert a'; induction a as [|c a IH]; intros [|c' a'] Ha Ha' Hx Hx' E; simpl in *.
  - auto.
  - injection E as -> _. apply andb_true_iff in Ha' as [? _]. congruence.
  - injection E as -> _. apply andb_true_iff in Ha as [? _]. congruence.
  - injection E as -> E. apply andb_true_iff in Ha as [_ Ha].
    apply andb_true_iff in Ha' as [_ Ha'].
    destruct (IH a' Ha Ha' Hx Hx' E) as [-> ?]. auto.
Qed.

Lemma forallb_mid_false (a t : str) (x : char) :
  isspace x = false -> forallb isspace (a ++ x :: t) = false.
Proof.
  intros Hx. rewrite forallb_app. simpl. rewrite Hx. simpl. apply andb_false_r.
Qed.

(** [trims_to] determines its result: [strip s] is the only trimmed middle
    of [s] between two runs of whitespace. *)
Lemma trims_to_unique (s r r' : str) : trims_to s r -> trims_to s r' -> r = r'.
Proof.
  intros (a & b & E & Ha & Hb & Hh & Ht) (a' & b' & E' & Ha' & Hb' & Hh' & Ht').
  destruct r as [|x r], r' as [|x' r'].
  - reflexivity.
  - exfalso. simpl in E.
    assert (H : forallb isspace s = true) by (rewrite E, forallb_app, Ha, Hb; reflexivity).
    rewrite E' in H. simpl in H. rewrite forallb_mid_false in H; [discriminate|assumption].
  - exfalso. simpl in E'.
    assert (H : forallb isspace s = true) by (rewrite E', forallb_app, Ha', Hb'; reflexivity).
    rewrite E in H. simpl in H. rewrite forallb_mid_false in H; [discriminate|assumption].
  - rewrite E in E'. simpl in E'.
    destruct (space_prefix_unique a a' x x' _ _ Ha Ha' Hh Hh' E') as [-> E2].
    (* the same argument from the right end *)
    assert (E3 : rev b ++ rev (x :: r) = rev b' ++ rev (x' :: r')).
    { rewrite <- !rev_app_distr. f_equal. exact E2. }
    destruct (rev (x :: r)) as [|y u] eqn:Ru.
    { apply (f_equal (@rev _)) in Ru. rewrite rev_involutive in Ru. discriminate. }
    destruct (rev (x' :: r')) as [|y' u'] eqn:Ru'.
    { apply (f_equal (@rev _)) in Ru'. rewrite rev_involutive in Ru'. discriminate. }
    assert (Hrb : forallb isspace (rev b) = true) by now rewrite forallb_rev.
    assert (Hrb' : forallb isspace (rev b') = true) by now rewrite forallb_rev.
    destruct (space_prefix_unique (rev b) (rev b') y y' _ _ Hrb Hrb' Ht Ht' E3) as [_ E4].
    rewrite <- Ru, <- Ru' in E4.
    apply (f_equal (@rev _)) in E4. now rewrite !rev_involutive in E4.
Qed.

(** ** [replace] *)

Lemma starts_with_spec (p s : str) :
  starts_with p s = true <-> exists rest, s = p ++ rest.
Proof.
  revert s; induction p as [|a p IH]; intros s; simpl.
  - split; [intros _; now exists s|reflexivity].
  - destruct s as [|b s].
    + split; [discriminate|intros [rest H]; discriminate].
    + rewrite andb_true_iff, N.eqb_eq, IH. split.
      * intros [-> [rest ->]]. now exists rest.
      * intros [rest H]. injection H as -> ->. split; [reflexivity|now exists rest].
Qed.

(** Once the count is used up the scan only drops what is left of the
    occurrence it replaced and copies the rest. *)
Lemma replace_go_done (old new : str) (k : nat) (s : str) :
  replace_go old new 0 k s = skipn k s.
Proof.
  revert k; induction s as [|c s IH]; intros [|k]; simpl; try reflexivity.
  - f_equal. rewrite IH. reflexivity.
  - apply IH.
Qed.

Lemma replace_first_spec (old : str) (s : str) :
  old <> [] -> removes_first old s (replace old [] 1 s).
Proof.
  intros Hold. unfold replace. induction s as [|c s IH].
  - left. split; [|reflexivity]. intros a b H.
    destruct a; [destruct old; [congruence|discriminate]|discriminate].
  - cbn [replace_go]. destruct (starts_with old (c :: s)) eqn:E.
    + right. apply starts_with_spec in E as [rest E].
      exists [], rest. split; [exact E|]. split; [intros; simpl; lia|].
      rewrite replace_go_done. simpl.
      destruct old as [|o old']; [congruence|].
      simpl in E. injection E as _ ->. simpl. rewrite Nat.sub_0_r.
      rewrite skipn_app, skipn_all, Nat.sub_diag. reflexivity.
    + assert (Hhead : forall b, c :: s <> old ++ b).
      { intros b H. assert (starts_with old (c :: s) = true)
          by (apply starts_with_spec; now exists b). congruence. }
      destruct IH as [[Hno ->]|(a & b & Hs & Hmin & ->)].
      * left. split; [|reflexivity]. intros [|x a] b H.
        -- now apply (Hhead b).
        -- simpl in H. injection H as _ H. now apply (Hno a b).
      * right. exists (c :: a), b. split; [simpl; now rewrite Hs|]. split; [|reflexivity].
        intros [|x a'] b' H.
        -- exfalso. now apply (Hhead b').
        -- simpl in H. injection H as _ H. simpl. apply le_n_S. now apply (Hmin a' b').
Qed.

Lemma app_eq_length {A} (a a' b b' : list A) :
  a ++ b = a' ++ b' -> length a = length a' -> a = a' /\ b = b'.
Proof.
  revert a'; induction a as [|x a IH]; intros [|x' a'] E L; simpl in *;
    try discriminate; auto.
  injection E as -> E. injection L as L. destruct (IH a' E L) as [-> ->]. auto.
Qed.

(** [removes_first] determines its result. *)
Lemma removes_first_unique (p s r r' : str) :
  removes_first p s r -> removes_first p s r' -> r = r'.
Proof.
  intros [[Hno ->]|(a & b & Hs & Hmin & ->)] [[Hno' ->]|(a' & b' & Hs' & Hmin' & ->)].
  - reflexivity.
  - exfalso. now apply (Hno a' b').
  - exfalso. now apply (Hno' a b).
  - assert (L : length a = length a').
    { apply Nat.le_antisymm; [now apply (Hmin a' b')|now apply (Hmin' a b)]. }
    rewrite Hs in Hs'. destruct (app_eq_length _ _ _ _ Hs' L) as [-> E].
    apply app_inv_head in E. now subst.
Qed.

(** A text in which [p] does not occur is left as it is. *)
Lemma replace_absent (old : str) (s : str) :
  old <> [] -> (forall a b, s <> a ++ old ++ b) -> replace old [] 1 s = s.
Proof.
  intros Hold Hno. apply (removes_first_unique old s).
  - now apply replace_first_spec.
  - left. auto.
Qed.

(** A text that starts with [p] loses exactly that occurrence. *)
Lemma replace_leading (old rest : str) :
  old <> [] -> replace old [] 1 (old ++ rest) = rest.
Proof.
  intros Hold. apply (removes_first_unique old (old ++ rest)).
  - now apply replace_first_spec.
  - right. exists [], rest. repeat split. intros; simpl; lia.
Qed.

Lemma format_metadata_spec_of (line : str) : metadata_of line (format_metadata line).
Proof.
  exists (replace [slash; slash] [] 1 line),
         (replace [hash] [] 1 (replace [slash; slash] [] 1 line)).
  split; [apply replace_first_spec; discriminate|].
  split; [apply replace_first_spec; discriminate|].
  apply strip_spec.
Qed.

Lemma metadata_of_unique (line v v' : str) :
  metadata_of line v -> metadata_of line v' -> v = v'.
Proof.
  intros (a & b & H1 & H2 & H3) (a' & b' & H1' & H2' & H3').
  assert (a = a') by eauto using removes_first_unique. subst a'.
  assert (b = b') by eauto using removes_first_unique. subst b'.
  eauto using trims_to_unique.
Qed.

(** ** The parser *)

(** [parse_code] with its loop over [code_lines[6:]] run. *)
Lemma parse_code_eq (text : str) (category : option Category) :
  parse_code text category =
  let code_lines := split [nl] text in
  if length code_lines <? 7 then inl SyntaxError
  else inr {| categoryName :=
                match category with
                | None => format_metadata (line_at code_lines 0)
                | Some c => categoryName c
                end;
              snippets :=
                match category with None => [] | Some c => snippets c end
                ++ [{| title := format_metadata (line_at code_lines 1);
                       description := format_metadata (line_at code_lines 2);
                       code := skipn 6 code_lines;
                       tags := map strip (split [comma]
                                 (format_metadata (line_at code_lines 3)));
                       author := format_metadata (line_at code_lines 4) |}] |}.
Proof.
  unfold parse_code. cbv zeta. destruct (length (split [nl] text) <? 7); [reflexivity|].
  rewrite fold_append. destruct category; reflexivity.
Qed.

(** The only exception of [parse_code] is its own. *)
Lemma parse_code_raises (text : str) (category : option Category) (e : exn) :
  parse_code text category = inl e -> e = SyntaxError.
Proof.
  rewrite parse_code_eq. cbv zeta.
  destruct (length (split [nl] text) <? 7); congruence.
Qed.

Lemma skipn_nth_error {A} (n i : nat) (l : list A) :
  nth_error (skipn n l) i = nth_error l (n + i).
Proof.
  revert l; induction n as [|n IH]; intros l; [reflexivity|].
  destruct l; simpl; [now destruct i|apply IH].
Qed.

(** C2: [parse_code] fails exactly when the text splits into fewer than 7
    lines, and then with the syntax error (the FormatError of the
    specification); six lines fail, seven succeed with one line of code. *)
Theorem parse_code_error_iff (text : str) (category : option Category) :
  ((exists e, parse_code text category = inl e) <-> length (split [nl] text) < 7)
  /\ (forall e, parse_code text category = inl e -> e = SyntaxError)
  /\ (length (split [nl] text) = 6 -> parse_code text category = inl SyntaxError)
  /\ (length (split [nl] text) = 7 ->
      exists cat sn, parse_code text None = inr cat
                     /\ snippets cat = [sn] /\ length (code sn) = 1).
Proof.
  rewrite !parse_code_eq. cbv zeta.
  destruct (Nat.ltb_spec (length (split [nl] text)) 7) as [Hlt|Hge].
  - repeat split.
    + intros _. exact Hlt.
    + intros _. now exists SyntaxError.
    + intros e H. congruence.
    + intros H. lia.
  - repeat split.
    + intros [e H]. discriminate.
    + intros H. lia.
    + intros e H. discriminate.
    + intros H. lia.
    + intros H. eexists. eexists. split; [reflexivity|]. split; [reflexivity|].
      cbn [code]. rewrite length_skipn. lia.
Qed.

Example parse_code_six_lines :
  length (split [nl] (join [nl] (firstn 6 scenario_lines))) = 6
  /\ parse_code (join [nl] (firstn 6 scenario_lines)) None = inl SyntaxError.
Proof. split; reflexivity. Qed.

Example parse_code_seven_lines :
  length (split [nl] (join [nl] (firstn 7 scenario_lines))) = 7
  /\ exists cat sn, parse_code (join [nl] (firstn 7 scenario_lines)) None = inr cat
                    /\ snippets cat = [sn] /\ code sn = [lit "def add(a, b):"].
Proof. split; [reflexivity|]. eexists. eexists. repeat split. Qed.

(** C3: a text of at least 7 lines parses to a category with exactly one
    snippet; its code is the lines from index 6 on, as many as there are,
    each as it stands in the text. *)
Theorem parse_code_copies_code (text : str) :
  7 <= length (split [nl] text) ->
  exists cat sn,
    parse_code text None = inr cat
    /\ snippets cat = [sn]
    /\ length (code sn) = length (split [nl] text) - 6
    /\ code sn = skipn 6 (split [nl] text)
    /\ (forall i, nth_error (code sn) i = nth_error (split [nl] text) (6 + i))
    /\ text = join [nl] (firstn 6 (split [nl] text) ++ code sn).
Proof.
  intros H. rewrite parse_code_eq. cbv zeta.
  destruct (Nat.ltb_spec (length (split [nl] text)) 7) as [Hlt|_]; [lia|].
  eexists. eexists. split; [reflexivity|]. split; [reflexivity|]. cbn [code].
  split; [apply length_skipn|]. split; [reflexivity|].
  split; [intros i; apply skipn_nth_error|].
  now rewrite firstn_skipn, join_split.
Qed.

Lemma parse_code_copies_code_witness :
  7 <= length (split [nl] scenario_text)
  /\ exists cat sn,
       parse_code scenario_text None = inr cat
       /\ snippets cat = [sn]
       /\ length (code sn) = length (split [nl] scenario_text) - 6
       /\ code sn = skipn 6 (split [nl] scenario_text)
       /\ (forall i, nth_error (code sn) i = nth_error (split [nl] scenario_text) (6 + i))
       /\ scenario_text = join [nl] (firstn 6 (split [nl] scenario_text) ++ code sn).
Proof.
  assert (H : 7 <= length (split [nl] scenario_text)) by (vm_compute; lia).
  exact (conj H (parse_code_copies_code scenario_text H)).
Defined.

(** The scenario of the specification. *)
Example parse_code_scenario :
  parse_code scenario_text None =
  inr {| categoryName := lit "Math";
         snippets := [{| title := lit "Add Two Numbers";
                         description := lit "Returns the sum of two integers";
                         code := [lit "def add(a, b):"; lit "    return a + b"];
                         tags := [lit "math"; lit "arithmetic"];
                         author := lit "Jane" |}] |}.
Proof. reflexivity. Qed.

Lemma Forall2_map_strip (segs : list str) : Forall2 trims_to segs (map strip segs).
Proof.
  induction segs; simpl; constructor; [apply strip_spec|assumption].
Qed.

(** C5: the tags of the snippet are the pieces of the formatted line 3
    between its commas, each trimmed, none dropped: as many tags as commas
    plus one; the tag line "a, b ,c" gives the tags a, b and c. *)
Theorem parse_code_tags (text : str) :
  7 <= length (split [nl] text) ->
  exists cat sn segs,
    parse_code text None = inr cat
    /\ snippets cat = [sn]
    /\ tags sn = map strip (split [comma] (format_metadata (line_at (split [nl] text) 3)))
    /\ join [comma] segs = format_metadata (line_at (split [nl] text) 3)
    /\ Forall (fun seg => ~ In comma seg) segs
    /\ Forall2 trims_to segs (tags sn)
    /\ length (tags sn)
       = S (count_occ N.eq_dec (format_metadata (line_at (split [nl] text) 3)) comma)
    /\ (line_at (split [nl] text) 3 = lit "a, b ,c" ->
        tags sn = [lit "a"; lit "b"; lit "c"]).
Proof.
  intros H. rewrite parse_code_eq. cbv zeta.
  destruct (Nat.ltb_spec (length (split [nl] text)) 7) as [Hlt|_]; [lia|].
  eexists. eexists. exists (split [comma] (format_metadata (line_at (split [nl] text) 3))).
  split; [reflexivity|]. split; [reflexivity|]. cbn [tags].
  split; [reflexivity|]. split; [apply join_split|]. split; [apply split_no_sep|].
  split; [apply Forall2_map_strip|]. split.
  - rewrite length_map. apply split_length.
  - intros ->. reflexivity.
Qed.

Lemma parse_code_tags_witness :
  7 <= length (split [nl] tags_text)
  /\ line_at (split [nl] tags_text) 3 = lit "a, b ,c"
  /\ exists cat sn segs,
    parse_code tags_text None = inr cat
    /\ snippets cat = [sn]
    /\ tags sn = map strip (split [comma] (format_metadata (line_at (split [nl] tags_text) 3)))
    /\ join [comma] segs = format_metadata (line_at (split [nl] tags_text) 3)
    /\ Forall (fun seg => ~ In comma seg) segs
    /\ Forall2 trims_to segs (tags sn)
    /\ length (tags sn)
       = S (count_occ N.eq_dec (format_metadata (line_at (split [nl] tags_text) 3)) comma)
    /\ (line_at (split [nl] tags_text) 3 = lit "a, b ,c" ->
        tags sn = [lit "a"; lit "b"; lit "c"]).
Proof.
  assert (H : 7 <= length (split [nl] tags_text)) by (vm_compute; lia).
  exact (conj H (conj eq_refl (parse_code_tags tags_text H))).
Defined.

(** Empty tags stay where they are. *)
Example tags_keep_empty :
  map strip (split [comma] (format_metadata (lit "# a,, b ,")))
  = [lit "a"; lit ""; lit "b"; lit ""].
Proof. reflexivity. Qed.

(** C9: two texts of at least 7 lines that differ in line 5 only parse to
    the same category. *)
Theorem parse_code_ignores_line5
  (pre post : list str) (l5 l5' : str) (text text' : str)
  (category : option Category) :
  length pre = 5 -> post <> [] ->
  split [nl] text = pre ++ l5 :: post ->
  split [nl] text' = pre ++ l5' :: post ->
  parse_code text category = parse_code text' category.
Proof.
  intros Hpre Hpost E E'. rewrite !parse_code_eq. cbv zeta. rewrite E, E'.
  destruct pre as [|a [|b [|c [|d [|e [|]]]]]]; try discriminate.
  reflexivity.
Qed.

Lemma parse_code_ignores_line5_witness :
  parse_code scenario_text None
  = parse_code (join [nl] (firstn 5 scenario_lines ++ lit "# not blank" :: skipn 6 scenario_lines)) None.
Proof.
  apply (parse_code_ignores_line5
           (firstn 5 scenario_lines) (skipn 6 scenario_lines)
           (lit "") (lit "# not blank")).
  - reflexivity.
  - discriminate.
  - reflexivity.
  - reflexivity.
Defined.

(** C10: a final newline adds an empty last line, which counts as a line and
    is copied into the code; six lines of content closed by a newline parse,
    with the empty string as the only line of code. *)
Theorem parse_code_trailing_newline :
  (forall text, split [nl] (text ++ [nl]) = split [nl] text ++ [[]])
  /\ (forall text, 6 <= length (split [nl] text) ->
        exists cat sn, parse_code (text ++ [nl]) None = inr cat
                       /\ snippets cat = [sn]
                       /\ code sn = skipn 6 (split [nl] text) ++ [[]])
  /\ (exists text,
        length (split [nl] text) = 6
        /\ Forall (fun line => line <> []) (split [nl] text)
        /\ parse_code text None = inl SyntaxError
        /\ exists cat sn, parse_code (text ++ [nl]) None = inr cat
                          /\ snippets cat = [sn]
                          /\ code sn = [[]]).
Proof.
  split; [intros text; apply split_snoc_sep|]. split.
  - intros text H. rewrite parse_code_eq. cbv zeta. rewrite split_snoc_sep.
    destruct (Nat.ltb_spec (length (split [nl] text ++ [[]])) 7) as [Hlt|_].
    { rewrite length_app in Hlt. simpl in Hlt. lia. }
    eexists. eexists. split; [reflexivity|]. split; [reflexivity|]. cbn [code].
    rewrite skipn_app. replace (6 - length (split [nl] text)) with 0 by lia.
    reflexivity.
  - exists (removelast six_lines_text). split; [reflexivity|].
    split; [repeat constructor; discriminate|]. split; [reflexivity|].
    eexists. eexists. repeat split.
Qed.

Example parse_code_six_lines_text :
  parse_code six_lines_text None =
  inr {| categoryName := lit "Math";
         snippets := [{| title := lit "Add"; description := lit "Sum";
                         code := [lit ""]; tags := [lit "math"];
                         author := lit "Jane" |}] |}.
Proof. reflexivity. Qed.

(** ** Metadata lines *)

(** C4, as the specification states it, fails: a [#] inside the title is
    removed although it does not start the line. *)
Lemma format_metadata_inner_marker :
  exists cat sn,
    parse_code marker_text None = inr cat
    /\ snippets cat = [sn]
    /\ line_at (split [nl] marker_text) 1 = lit "C# notes"
    /\ title sn = lit "C notes"
    /\ format_metadata_spec (lit "C# notes") = lit "C# notes"
    /\ title sn <> format_metadata_spec (line_at (split [nl] marker_text) 1).
Proof.
  eexists. eexists. split; [reflexivity|]. split; [reflexivity|].
  split; [reflexivity|]. split; [reflexivity|]. split; [reflexivity|].
  vm_compute. discriminate.
Qed.

(** Both markers go when both occur, and a marker after leading blanks goes
    too. *)
Example format_metadata_both_markers :
  format_metadata (lit "// # Title") = lit "Title"
  /\ format_metadata (lit "  # Title") = lit "Title"
  /\ format_metadata (lit "## Title") = lit "# Title"
  /\ format_metadata (lit "see http://host/#top") = lit "see http:host/top".
Proof. repeat split. Qed.

(** C4, amended: each metadata field is its line without the leftmost [//]
    (wherever it stands), then without the leftmost [#] of what remains
    (wherever it stands), then trimmed; this determines the field, and later
    occurrences of a marker stay.  For a line that carries one marker, at
    its start, and none elsewhere, the field is the rest of the line,
    trimmed. *)
Theorem parse_code_metadata (text : str) :
  7 <= length (split [nl] text) ->
  exists cat sn tagline,
    parse_code text None = inr cat
    /\ snippets cat = [sn]
    /\ metadata_of (line_at (split [nl] text) 0) (categoryName cat)
    /\ metadata_of (line_at (split [nl] text) 1) (title sn)
    /\ metadata_of (line_at (split [nl] text) 2) (description sn)
    /\ metadata_of (line_at (split [nl] text) 3) tagline
    /\ tags sn = map strip (split [comma] tagline)
    /\ metadata_of (line_at (split [nl] text) 4) (author sn)
    /\ (forall line v v', metadata_of line v -> metadata_of line v' -> v = v')
    /\ (forall rest,
          (forall a b, rest <> a ++ [slash; slash] ++ b) ->
          (forall a b, rest <> a ++ [hash] ++ b) ->
          format_metadata ([slash; slash] ++ rest) = strip rest
          /\ format_metadata ([hash] ++ rest) = strip rest
          /\ format_metadata rest = strip rest).
Proof.
  intros H. rewrite parse_code_eq. cbv zeta.
  destruct (Nat.ltb_spec (length (split [nl] text)) 7) as [Hlt|_]; [lia|].
  eexists. eexists. exists (format_metadata (line_at (split [nl] text) 3)).
  split; [reflexivity|]. split; [reflexivity|].
  cbn [categoryName title description tags author].
  repeat (split; [first [apply format_metadata_spec_of | reflexivity]|]).
  split; [exact metadata_of_unique|].
  intros rest Hs Hh. unfold format_metadata. repeat split.
  - rewrite replace_leading by discriminate. now rewrite replace_absent by (auto; discriminate).
  - rewrite (replace_absent [slash; slash]); [|discriminate|].
    + now rewrite replace_leading by discriminate.
    + intros [|x a] b E.
      * discriminate.
      * simpl in E. injection E as _ E. now apply (Hs a b).
  - rewrite (replace_absent [slash; slash]) by (auto; discriminate).
    now rewrite replace_absent by (auto; discriminate).
Qed.

Lemma parse_code_metadata_witness :
  7 <= length (split [nl] marker_text)
  /\ exists cat sn tagline,
    parse_code marker_text None = inr cat
    /\ snippets cat = [sn]
    /\ metadata_of (line_at (split [nl] marker_text) 0) (categoryName cat)
    /\ metadata_of (line_at (split [nl] marker_text) 1) (title sn)
    /\ metadata_of (line_at (split [nl] marker_text) 2) (description sn)
    /\ metadata_of (line_at (split [nl] marker_text) 3) tagline
    /\ tags sn = map strip (split [comma] tagline)
    /\ metadata_of (line_at (split [nl] marker_text) 4) (author sn)
    /\ (forall line v v', metadata_of line v -> metadata_of line v' -> v = v')
    /\ (forall rest,
          (forall a b, rest <> a ++ [slash; slash] ++ b) ->
          (forall a b, rest <> a ++ [hash] ++ b) ->
          format_metadata ([slash; slash] ++ rest) = strip rest
          /\ format_metadata ([hash] ++ rest) = strip rest
          /\ format_metadata rest = strip rest).
Proof.
  assert (H : 7 <= length (split [nl] marker_text)) by (vm_compute; lia).
  exact (conj H (parse_code_metadata marker_text H)).
Defined.

(** ** The merge *)

Lemma merge_loop_none (root : JSONModel) (c : Category) :
  Forall (fun x => categoryName x <> categoryName c) root ->
  merge_loop root c = None.
Proof.
  induction 1 as [|x root Hx _ IH]; [reflexivity|]. simpl.
  apply eqb_neq in Hx. rewrite Hx. simpl. now rewrite IH.
Qed.

Lemma merge_loop_some (pre post : JSONModel) (category c : Category) :
  Forall (fun x => categoryName x <> categoryName c) pre ->
  categoryName category = categoryName c ->
  merge_loop (pre ++ category :: post) c
  = Some (pre ++ {| categoryName := categoryName category;
                    snippets := snippets category ++ snippets c |} :: post).
Proof.
  intros Hpre Hc. induction Hpre as [|x pre Hx _ IH]; simpl.
  - apply eqb_eq in Hc. rewrite Hc. simpl. now rewrite fold_append.
  - apply eqb_neq in Hx. rewrite Hx. simpl. now rewrite IH.
Qed.

(** Either some category has the name, and then there is a first one, or
    none has. *)
Lemma first_match (root : JSONModel) (c : Category) :
  (exists pre category post,
      root = pre ++ category :: post
      /\ Forall (fun x => categoryName x <> categoryName c) pre
      /\ categoryName category = categoryName c)
  \/ Forall (fun x => categoryName x <> categoryName c) root.
Proof.
  induction root as [|x root IH]; [right; constructor|].
  destruct (Str.eqb (categoryName x) (categoryName c)) eqn:E.
  - left. exists [], x, root. apply eqb_eq in E. repeat split; auto.
  - apply eqb_neq in E. destruct IH as [(pre & category & post & -> & Hpre & Hc)|Hno].
    + left. exists (x :: pre), category, post. repeat split; auto.
    + right. constructor; assumption.
Qed.

(** The merge scenario of the specification: the prior snippet comes first. *)
Example merge_scenario :
  merge math_document scenario_category
  = [{| categoryName := lit "Text"; snippets := [] |};
     {| categoryName := lit "Math";
        snippets := [prior_snippet; scenario_snippet] |}].
Proof. reflexivity. Qed.

Example merge_new_name :
  merge math_document {| categoryName := lit "math"; snippets := [scenario_snippet] |}
  = math_document ++ [{| categoryName := lit "math"; snippets := [scenario_snippet] |}].
Proof. reflexivity. Qed.

(** The names of the merged document: those it had, and the new one at the
    end when it is new. *)
Lemma merge_names (root : JSONModel) (c : Category) :
  map categoryName (merge root c)
  = if existsb (fun x => Str.eqb (categoryName x) (categoryName c)) root
    then map categoryName root
    else map categoryName root ++ [categoryName c].
Proof.
  destruct (first_match root c) as [(pre & category & post & -> & Hpre & Hc)|Hno].
  - unfold merge. rewrite merge_loop_some by assumption.
    replace (existsb _ _) with true.
    + rewrite !map_app. reflexivity.
    + symmetry. apply existsb_exists. exists category. split.
      * apply in_elt.
      * now apply eqb_eq.
  - unfold merge. rewrite merge_loop_none by assumption.
    replace (existsb _ _) with false.
    + unfold append. now rewrite map_app.
    + symmetry. apply not_true_is_false. intros E.
      apply existsb_exists in E as (x & Hin & Hx).
      rewrite Forall_forall in Hno. apply eqb_eq in Hx. now apply (Hno x).
Qed.

(** C6: a document in which no two categories share a name stays so when a
    category is merged into it. *)
Theorem merge_preserves_unique_names (root : JSONModel) (category_object : Category) :
  unique_names root -> unique_names (merge root category_object).
Proof.
  unfold unique_names. intros Hu. rewrite merge_names.
  destruct (existsb _ root) eqn:E; [assumption|].
  apply NoDup_app; [assumption|repeat constructor; intros []|].
  intros name Hin [<-|[]].
  apply in_map_iff in Hin as (x & Hx & Hin).
  assert (existsb (fun x => Str.eqb (categoryName x) (categoryName category_object)) root = true).
  { apply existsb_exists. exists x. split; [assumption|now apply eqb_eq]. }
  congruence.
Qed.

Lemma merge_preserves_unique_names_witness :
  unique_names math_document
  /\ unique_names (merge math_document scenario_category).
Proof.
  assert (H : unique_names math_document).
  { unfold unique_names. simpl. repeat constructor; simpl; intuition discriminate. }
  exact (conj H (merge_preserves_unique_names math_document scenario_category H)).
Defined.

(** ** JSON text: strings *)

Lemma skip_ws_blanks (w s : str) :
  forallb is_ws w = true -> skip_ws (w ++ s) = skip_ws s.
Proof.
  induction w as [|c w IH]; [reflexivity|]. simpl.
  intros H. apply andb_true_iff in H as [Hc Hw]. rewrite Hc. auto.
Qed.

Lemma newline_blank (depth : nat) : forallb is_ws (newline depth) = true.
Proof.
  unfold newline. simpl. apply forallb_forall. intros c Hc.
  apply repeat_spec in Hc. now subst.
Qed.

Lemma skip_ws_newline (depth : nat) (s : str) :
  skip_ws (newline depth ++ s) = skip_ws s.
Proof. apply skip_ws_blanks, newline_blank. Qed.

(** [parse_value] and [parse_members] start by skipping blanks. *)
Lemma parse_value_blanks (fuel : nat) (w s : str) :
  forallb is_ws w = true -> parse_value fuel (w ++ s) = parse_value fuel s.
Proof.
  intros Hw. destruct fuel; [reflexivity|]. simpl.
  now rewrite skip_ws_blanks.
Qed.

Lemma parse_members_blanks (fuel : nat) (w s : str) :
  forallb is_ws w = true -> parse_members fuel (w ++ s) = parse_members fuel s.
Proof.
  intros Hw. destruct fuel; [reflexivity|]. simpl.
  now rewrite skip_ws_blanks.
Qed.

Lemma below_32 (c : N) :
  (c < 32)%N -> exists n, n < 32 /\ c = N.of_nat n.
Proof.
  intros H. exists (N.to_nat c). split; [lia|]. now rewrite N2Nat.id.
Qed.

(** Reading undoes the escape of one character. *)
Lemma parse_chars_escape_char (c : char) (fuel : nat) (s : str) :
  parse_chars (S fuel) (escape_char c ++ s) = cons_result c (parse_chars fuel s).
Proof.
  destruct (N.ltb_spec c 32) as [Hlt|Hge].
  - apply below_32 in Hlt as (n & Hn & ->).
    do 32 (destruct n as [|n]; [reflexivity|]). lia.
  - destruct (N.eqb_spec c 34) as [->|H34]; [reflexivity|].
    destruct (N.eqb_spec c 92) as [->|H92]; [reflexivity|].
    unfold escape_char.
    apply N.eqb_neq in H34, H92. rewrite H34, H92.
    replace (c =? 8)%N with false by (symmetry; apply N.eqb_neq; lia).
    replace (c =? 9)%N with false by (symmetry; apply N.eqb_neq; lia).
    replace (c =? 10)%N with false by (symmetry; apply N.eqb_neq; lia).
    replace (c =? 12)%N with false by (symmetry; apply N.eqb_neq; lia).
    replace (c =? 13)%N with false by (symmetry; apply N.eqb_neq; lia).
    replace (c <? 32)%N with false by (symmetry; apply N.ltb_ge; lia).
    simpl. rewrite H34, H92.
    replace (c <? 32)%N with false by (symmetry; apply N.ltb_ge; lia).
    reflexivity.
Qed.

Lemma parse_chars_escape (s : str) (fuel : nat) (rest : str) :
  length s < fuel ->
  parse_chars fuel (flat_map escape_char s ++ quote :: rest) = Some (s, rest).
Proof.
  revert fuel; induction s as [|c s IH]; intros fuel Hf.
  - destruct fuel; [lia|]. reflexivity.
  - destruct fuel; [simpl in Hf; lia|]. simpl flat_map. rewrite <- app_assoc.
    rewrite parse_chars_escape_char, IH by (simpl in Hf; lia). reflexivity.
Qed.

Lemma escape_char_length (c : char) : 1 <= length (escape_char c).
Proof.
  unfold escape_char.
  repeat match goal with |- context [if ?b then _ else _] => destruct b end;
    simpl; lia.
Qed.

Lemma escape_length (s : str) : length s <= length (flat_map escape_char s).
Proof.
  induction s as [|c s IH]; [reflexivity|]. simpl. rewrite length_app.
  pose proof (escape_char_length c). lia.
Qed.

Lemma parse_string_escape (s rest : str) :
  parse_string (flat_map escape_char s ++ quote :: rest) = Some (s, rest).
Proof.
  unfold parse_string. apply parse_chars_escape.
  rewrite length_app. simpl. pose proof (escape_length s). lia.
Qed.

Lemma parses_str (s : str) : parses (dump_str s) (JStr s).
Proof.
  intros fuel rest Hf. destruct fuel; [simpl in Hf; lia|].
  unfold dump_str. simpl. rewrite <- app_assoc. simpl.
  now rewrite parse_string_escape.
Qed.

(** ** JSON text: arrays and objects *)

Lemma parse_items_S (fuel : nat) (s : str) :
  parse_items (S fuel) s =
  match parse_value fuel s with
  | None => None
  | Some (v, r) =>
      match skip_ws r with
      | [] => None
      | c :: r1 =>
          if (c =? 44)%N then
            match parse_items fuel r1 with
            | Some (vs, r2) => Some (v :: vs, r2)
            | None => None
            end
          else if (c =? 93)%N then Some ([v], r1)
          else None
      end
  end.
Proof. reflexivity. Qed.

Lemma parse_value_array (fuel : nat) (s1 : str) :
  parse_value (S fuel) (lbracket :: s1) =
  match skip_ws s1 with
  | [] => None
  | c2 :: s2 =>
      if (c2 =? 93)%N then Some (JArr [], s2)
      else match parse_items fuel s1 with
           | Some (vs, r) => Some (JArr vs, r)
           | None => None
           end
  end.
Proof. reflexivity. Qed.

Lemma parse_value_object (fuel : nat) (s1 : str) :
  parse_value (S fuel) (lbrace :: s1) =
  match skip_ws s1 with
  | [] => None
  | c2 :: s2 =>
      if (c2 =? 125)%N then Some (JObj [], s2)
      else match parse_members fuel s1 with
           | Some (ms, r) => Some (JObj ms, r)
           | None => None
           end
  end.
Proof. reflexivity. Qed.

Lemma parse_members_quote (fuel : nat) (s1 : str) :
  parse_members (S fuel) (quote :: s1) =
  match parse_string s1 with
  | None => None
  | Some (key, r) =>
      match skip_ws r with
      | [] => None
      | c :: r1 =>
          if (c =? 58)%N then
            match parse_value fuel r1 with
            | None => None
            | Some (v, r2) =>
                match skip_ws r2 with
                | [] => None
                | d :: r3 =>
                    if (d =? 44)%N then
                      match parse_members fuel r3 with
                      | Some (ms, r4) => Some ((key, v) :: ms, r4)
                      | None => None
                      end
                    else if (d =? 125)%N then Some ([(key, v)], r3)
                    else None
                end
            end
          else None
      end
  end.
Proof. reflexivity. Qed.

(** A text that reads as a value starts, after blanks, with a character
    that closes neither an array nor an object. *)
Lemma parses_head (x : str) (v : value) (rest : str) :
  parses x v ->
  exists c s2, skip_ws (x ++ rest) = c :: s2
               /\ (c =? 93)%N = false /\ (c =? 125)%N = false.
Proof.
  intros H. specialize (H (S (length x)) rest (le_S _ _ (le_n _))).
  simpl in H. destruct (skip_ws (x ++ rest)) as [|c s2]; [discriminate|].
  exists c, s2. split; [reflexivity|].
  split.
  - destruct (N.eqb_spec c 93) as [->|]; [|reflexivity]. cbn in H. discriminate.
  - destruct (N.eqb_spec c 125) as [->|]; [|reflexivity]. cbn in H. discriminate.
Qed.

Lemma dump_items_cons (depth : nat) (x y : str) (l : list str) :
  dump_items depth (x :: y :: l)
  = newline depth ++ x ++ comma :: dump_items depth (y :: l).
Proof. reflexivity. Qed.

Lemma dump_items_one (depth : nat) (x : str) :
  dump_items depth [x] = newline depth ++ x.
Proof. reflexivity. Qed.

Lemma skip_ws_nonblank (c : char) (s : str) :
  is_ws c = false -> skip_ws (c :: s) = c :: s.
Proof. intros H. simpl. now rewrite H. Qed.

#[local] Arguments dump_items : simpl never.
#[local] Arguments newline : simpl never.

Lemma newline_length (depth : nat) : length (newline depth) = S (INDENT_SIZE * depth).
Proof. unfold newline. simpl length. now rewrite repeat_length. Qed.

Lemma parse_items_dump (depth depth' : nat) (items : list str) (vs : list value) :
  Forall2 parses items vs -> items <> [] ->
  forall fuel rest,
    length (dump_items depth items) <= fuel ->
    parse_items fuel (dump_items depth items ++ newline depth' ++ rbracket :: rest)
    = Some (vs, rest).
Proof.
  induction 1 as [|x v items vs Hx HF IH]; [congruence|]. intros _ fuel rest Hf.
  destruct items as [|y items].
  - inversion HF; subst. rewrite dump_items_one in *.
    rewrite length_app, newline_length in Hf.
    destruct fuel as [|fuel]; [lia|]. rewrite parse_items_S.
    rewrite <- app_assoc, parse_value_blanks by apply newline_blank.
    rewrite Hx by lia. rewrite skip_ws_newline. reflexivity.
  - rewrite dump_items_cons in *.
    rewrite !length_app, newline_length in Hf. cbn [length] in Hf.
    destruct fuel as [|fuel]; [lia|]. rewrite parse_items_S.
    rewrite <- !app_assoc, parse_value_blanks by apply newline_blank.
    rewrite Hx by lia. rewrite <- app_comm_cons.
    rewrite skip_ws_nonblank by reflexivity.
    change (comma =? 44)%N with true. cbv iota.
    rewrite IH; [reflexivity|discriminate|lia].
Qed.

Lemma parses_array (depth : nat) (items : list str) (vs : list value) :
  Forall2 parses items vs -> parses (dump_array depth items) (JArr vs).
Proof.
  intros HF fuel rest Hf. destruct HF as [|x v items vs Hx HF].
  - destruct fuel; [simpl in Hf; lia|]. reflexivity.
  - assert (HF' : Forall2 parses (x :: items) (v :: vs)) by now constructor.
    unfold dump_array in *. remember (x :: items) as l eqn:El.
    assert (Hl : l <> []) by (subst; discriminate).
    destruct l as [|x0 l0]; [congruence|].
    simpl length in Hf. rewrite !length_app in Hf.
    destruct fuel as [|fuel]; [lia|].
    change ((lbracket :: dump_items (S depth) (x0 :: l0) ++ newline depth ++ [rbracket]) ++ rest)
      with (lbracket :: (dump_items (S depth) (x0 :: l0) ++ newline depth ++ [rbracket]) ++ rest).
    rewrite parse_value_array.
    assert (Hhead : exists c s2,
               skip_ws ((dump_items (S depth) (x0 :: l0) ++ newline depth ++ [rbracket]) ++ rest)
               = c :: s2 /\ (c =? 93)%N = false).
    { injection El as -> ->.
      destruct items as [|y items].
      - rewrite dump_items_one. rewrite <- !app_assoc, skip_ws_newline.
        destruct (parses_head x v ((newline depth ++ [rbracket]) ++ rest) Hx)
          as (c & s2 & E & H1 & _).
        rewrite <- app_assoc in E. simpl in E. simpl. rewrite E. eauto.
      - rewrite dump_items_cons. rewrite <- !app_assoc, skip_ws_newline.
        destruct (parses_head x v
                    ((comma :: dump_items (S depth) (y :: items)) ++ (newline depth ++ [rbracket]) ++ rest) Hx)
          as (c & s2 & E & H1 & _).
        rewrite <- !app_assoc in E. simpl in E. simpl. rewrite E. eauto. }
    destruct Hhead as (c & s2 & -> & ->).
    rewrite <- !app_assoc. cbn [app].
    rewrite (parse_items_dump (S depth) depth (x0 :: l0) (v :: vs)); auto. lia.
Qed.

Lemma dump_member_app (key x rest : str) :
  dump_member (key, x) ++ rest
  = quote :: flat_map escape_char key ++ quote :: colon :: space :: x ++ rest.
Proof.
  unfold dump_member, dump_str. cbn [fst snd].
  rewrite <- !app_comm_cons, <- !app_assoc. reflexivity.
Qed.

Lemma dump_member_length (key x : str) :
  length x + 4 <= length (dump_member (key, x)).
Proof.
  unfold dump_member, dump_str. cbn [fst snd].
  rewrite !length_app. cbn [length]. rewrite length_app. cbn [length]. lia.
Qed.

(** One member, read: its key, its value, and what follows the value. *)
Lemma parse_member (fuel : nat) (key x : str) (v : value) (rest : str) :
  parses x v -> length x <= fuel ->
  parse_members (S fuel) (dump_member (key, x) ++ rest) =
  match skip_ws rest with
  | [] => None
  | d :: r3 =>
      if (d =? 44)%N then
        match parse_members fuel r3 with
        | Some (ms, r4) => Some ((key, v) :: ms, r4)
        | None => None
        end
      else if (d =? 125)%N then Some ([(key, v)], r3)
      else None
  end.
Proof.
  intros Hx Hf. rewrite dump_member_app, parse_members_quote.
  rewrite parse_string_escape. rewrite skip_ws_nonblank by reflexivity.
  change (colon =? 58)%N with true. cbv iota.
  change (space :: x ++ rest) with ([space] ++ x ++ rest).
  rewrite (parse_value_blanks fuel [space] (x ++ rest)) by reflexivity.
  now rewrite Hx.
Qed.

Lemma parse_members_dump (depth depth' : nat)
  (members : list (str * str)) (kvs : list (str * value)) :
  Forall2 member_parses members kvs -> members <> [] ->
  forall fuel rest,
    length (dump_items depth (map dump_member members)) <= fuel ->
    parse_members fuel
      (dump_items depth (map dump_member members) ++ newline depth' ++ rbrace :: rest)
    = Some (kvs, rest).
Proof.
  induction 1 as [|[key x] [key' v] members kvs [Hk Hx] HF IH]; [congruence|].
  intros _ fuel rest Hf. cbn [fst snd] in Hk, Hx. subst key'.
  pose proof (dump_member_length key x) as Hlen.
  destruct members as [|m members].
  - inversion HF; subst. cbn [map] in *. rewrite dump_items_one in *.
    rewrite length_app, newline_length in Hf.
    destruct fuel as [|fuel]; [lia|].
    rewrite <- app_assoc, parse_members_blanks by apply newline_blank.
    rewrite (parse_member fuel key x v) by (auto; lia).
    rewrite skip_ws_newline. reflexivity.
  - cbn [map] in *. rewrite dump_items_cons in *.
    rewrite !length_app, newline_length in Hf. cbn [length] in Hf.
    destruct fuel as [|fuel]; [lia|].
    rewrite <- !app_assoc, parse_members_blanks by apply newline_blank.
    rewrite (parse_member fuel key x v) by (auto; lia).
    rewrite <- app_comm_cons. rewrite skip_ws_nonblank by reflexivity.
    change (comma =? 44)%N with true. cbv iota.
    rewrite IH; [reflexivity|discriminate|lia].
Qed.

Lemma parses_object (depth : nat)
  (members : list (str * str)) (kvs : list (str * value)) :
  Forall2 member_parses members kvs ->
  parses (dump_object depth members) (JObj kvs).
Proof.
  intros HF fuel rest Hf. destruct HF as [|[key x] kv members kvs Hm HF].
  - destruct fuel; [simpl in Hf; lia|]. reflexivity.
  - assert (HF' : Forall2 member_parses ((key, x) :: members) (kv :: kvs))
      by now constructor.
    unfold dump_object in *.
    cbn [length] in Hf. rewrite !length_app in Hf.
    destruct fuel as [|fuel]; [lia|].
    rewrite <- app_comm_cons, parse_value_object.
    assert (Hhead : exists s2,
               skip_ws ((dump_items (S depth) (map dump_member ((key, x) :: members))
                         ++ newline depth ++ [rbrace]) ++ rest)
               = quote :: s2).
    { cbn [map]. destruct members as [|m members].
      - rewrite dump_items_one. rewrite <- !app_assoc, skip_ws_newline.
        rewrite dump_member_app. rewrite skip_ws_nonblank by reflexivity. eauto.
      - cbn [map]. rewrite dump_items_cons. rewrite <- !app_assoc, skip_ws_newline.
        rewrite dump_member_app. rewrite skip_ws_nonblank by reflexivity. eauto. }
    destruct Hhead as (s2 & ->). change (quote =? 125)%N with false. cbv iota.
    rewrite <- !app_assoc. cbn [app].
    rewrite (parse_members_dump (S depth) depth ((key, x) :: members) (kv :: kvs));
      auto; [discriminate|lia].
Qed.

(** ** JSON text: documents *)

Lemma Forall2_map {A B C} (R : B -> C -> Prop) (f : A -> B) (g : A -> C) (l : list A) :
  (forall x, R (f x) (g x)) -> Forall2 R (map f l) (map g l).
Proof. intros H. induction l; simpl; constructor; auto. Qed.

Lemma parses_strs (depth : nat) (l : list str) :
  parses (dump_array depth (map dump_str l)) (tree_of_strs l).
Proof. apply parses_array, Forall2_map, parses_str. Qed.

Lemma parses_snippet (depth : nat) (s : Snippet) :
  parses (dump_snippet depth s) (tree_of_snippet s).
Proof.
  apply parses_object.
  repeat (constructor; [split; [reflexivity|cbn [snd]]|]);
    try apply parses_str; try apply parses_strs.
  constructor.
Qed.

Lemma parses_category (depth : nat) (c : Category) :
  parses (dump_category depth c) (tree_of_category c).
Proof.
  apply parses_object.
  constructor; [split; [reflexivity|apply parses_str]|].
  constructor; [split; [reflexivity|cbn [snd]]|constructor].
  apply parses_array, Forall2_map. intros s. apply parses_snippet.
Qed.

Lemma parses_document (root : JSONModel) :
  parses (dump_document root) (tree_of_document root).
Proof.
  apply parses_array, Forall2_map. intros c. apply parses_category.
Qed.

Lemma parse_json_dump (root : JSONModel) :
  parse_json (dump_document root) = Some (tree_of_document root).
Proof.
  unfold parse_json.
  pose proof (parses_document root (S (length (dump_document root))) []
                (le_S _ _ (le_n _))) as H.
  rewrite app_nil_r in H. rewrite H. reflexivity.
Qed.

Lemma traverse_map {A B} (f : B -> option A) (g : A -> B) (l : list A) :
  (forall x, f (g x) = Some x) -> traverse f (map g l) = Some l.
Proof.
  intros H. induction l as [|x l IH]; [reflexivity|].
  simpl. now rewrite H, IH.
Qed.

Lemma as_strs_tree (l : list str) : as_list as_str (tree_of_strs l) = Some l.
Proof. apply traverse_map. reflexivity. Qed.

Lemma as_snippet_tree (s : Snippet) : as_snippet (tree_of_snippet s) = Some s.
Proof.
  destruct s as [t d c g a]. unfold as_snippet, tree_of_snippet, field.
  cbn [title description code tags author].
  change (lookup (lit "title") _) with (Some (JStr t)).
  change (lookup (lit "description") _) with (Some (JStr d)).
  change (lookup (lit "code") _) with (Some (tree_of_strs c)).
  change (lookup (lit "tags") _) with (Some (tree_of_strs g)).
  change (lookup (lit "author") _) with (Some (JStr a)).
  cbv iota. rewrite !as_strs_tree. reflexivity.
Qed.

Lemma as_category_tree (c : Category) : as_category (tree_of_category c) = Some c.
Proof.
  destruct c as [n ss]. unfold as_category, tree_of_category, field.
  cbn [categoryName snippets].
  change (lookup (lit "categoryName") _) with (Some (JStr n)).
  change (lookup (lit "snippets") _) with (Some (JArr (map tree_of_snippet ss))).
  cbv iota. cbn [as_str as_list]. rewrite (traverse_map _ _ ss as_snippet_tree). reflexivity.
Qed.

Lemma validate_dump (root : JSONModel) :
  model_validate_json (dump_document root) = inr root.
Proof.
  unfold model_validate_json. rewrite parse_json_dump.
  unfold tree_of_document, as_list.
  now rewrite (traverse_map _ _ root as_category_tree).
Qed.

(** *** No carriage return is written *)

Lemma universal_newlines_no_cr (s : str) :
  no_cr s = true -> universal_newlines s = s.
Proof.
  induction s as [|c s IH]; [reflexivity|]. simpl.
  intros H. apply andb_true_iff in H as [Hc Hs].
  apply negb_true_iff in Hc. rewrite Hc. now rewrite IH.
Qed.

Lemma no_cr_app (a b : str) : no_cr (a ++ b) = no_cr a && no_cr b.
Proof. apply forallb_app. Qed.

Lemma no_cr_escape_char (c : char) : no_cr (escape_char c) = true.
Proof.
  destruct (N.ltb_spec c 32) as [Hlt|Hge].
  - apply below_32 in Hlt as (n & Hn & ->).
    do 32 (destruct n as [|n]; [reflexivity|]). lia.
  - unfold escape_char.
    repeat match goal with
           | |- context [if ?b then _ else _] => destruct b eqn:?
           end; try reflexivity.
    + exfalso. match goal with H : (c <? 32)%N = true |- _ => apply N.ltb_lt in H end. lia.
    + simpl. rewrite andb_true_r. apply negb_true_iff. assumption.
Qed.

Lemma no_cr_dump_str (s : str) : no_cr (dump_str s) = true.
Proof.
  unfold dump_str. change (quote :: ?x) with ([quote] ++ x).
  rewrite !no_cr_app. simpl. rewrite andb_true_r.
  induction s as [|c s IH]; [reflexivity|].
  simpl. now rewrite no_cr_app, no_cr_escape_char, IH.
Qed.

Lemma no_cr_newline (depth : nat) : no_cr (newline depth) = true.
Proof.
  unfold newline, no_cr. simpl. apply forallb_forall. intros c Hc.
  apply repeat_spec in Hc. now subst.
Qed.

Lemma no_cr_dump_items (depth : nat) (items : list str) :
  forallb no_cr items = true -> no_cr (dump_items depth items) = true.
Proof.
  induction items as [|x items IH]; [reflexivity|]. simpl forallb.
  intros H. apply andb_true_iff in H as [Hx Hl].
  destruct items as [|y items].
  - rewrite dump_items_one, no_cr_app, no_cr_newline, Hx. reflexivity.
  - rewrite dump_items_cons. change (comma :: ?l) with ([comma] ++ l).
    rewrite !no_cr_app, no_cr_newline, Hx, IH by assumption. reflexivity.
Qed.

Lemma no_cr_dump_array (depth : nat) (items : list str) :
  forallb no_cr items = true -> no_cr (dump_array depth items) = true.
Proof.
  intros H. unfold dump_array. destruct items as [|x items]; [reflexivity|].
  change (lbracket :: ?l) with ([lbracket] ++ l).
  rewrite !no_cr_app, no_cr_newline, no_cr_dump_items by assumption. reflexivity.
Qed.

Lemma no_cr_dump_member (m : str * str) :
  no_cr (snd m) = true -> no_cr (dump_member m) = true.
Proof.
  intros H. unfold dump_member. change (colon :: space :: ?l) with ([colon; space] ++ l).
  now rewrite !no_cr_app, no_cr_dump_str, H.
Qed.

Lemma no_cr_dump_object (depth : nat) (members : list (str * str)) :
  forallb (fun m => no_cr (snd m)) members = true ->
  no_cr (dump_object depth members) = true.
Proof.
  intros H. unfold dump_object. destruct members as [|m members]; [reflexivity|].
  change (lbrace :: ?l) with ([lbrace] ++ l).
  rewrite !no_cr_app, no_cr_newline, no_cr_dump_items; [reflexivity|].
  revert H. generalize (m :: members) as l. intros l.
  induction l as [|x l IH]; [reflexivity|]. cbn [map forallb].
  intros H. apply andb_true_iff in H as [Hx Hl].
  now rewrite no_cr_dump_member, IH.
Qed.

Lemma forallb_map_true {A B} (p : B -> bool) (f : A -> B) (l : list A) :
  (forall x, p (f x) = true) -> forallb p (map f l) = true.
Proof. intros H. induction l; simpl; [reflexivity|]. now rewrite H. Qed.

Lemma no_cr_dump_strs (depth : nat) (l : list str) :
  no_cr (dump_array depth (map dump_str l)) = true.
Proof. apply no_cr_dump_array, forallb_map_true, no_cr_dump_str. Qed.

Lemma no_cr_dump_snippet (depth : nat) (s : Snippet) :
  no_cr (dump_snippet depth s) = true.
Proof.
  apply no_cr_dump_object. cbn [forallb snd].
  now rewrite !no_cr_dump_str, !no_cr_dump_strs.
Qed.

Lemma no_cr_dump_category (depth : nat) (c : Category) :
  no_cr (dump_category depth c) = true.
Proof.
  apply no_cr_dump_object. cbn [forallb snd].
  rewrite no_cr_dump_str, no_cr_dump_array; [reflexivity|].
  apply forallb_map_true. intros s. apply no_cr_dump_snippet.
Qed.

Lemma no_cr_dump_document (root : JSONModel) : no_cr (dump_document root) = true.
Proof.
  apply no_cr_dump_array, forallb_map_true. intros c. apply no_cr_dump_category.
Qed.

(** ** Writing and reading back *)

Lemma update_same (fs : filesystem) (path : str) (n : node) :
  update fs path n path = Some n.
Proof.
  unfold update. now rewrite (proj2 (eqb_eq path path) eq_refl).
Qed.

(** C7: a document of Unicode text is written as a text that validates back
    to the same document: the same categories in the same order, each with
    the same snippets and fields; the text has no carriage return, so a file
    holding it is read back as written. *)
Theorem dump_validate_roundtrip (root : JSONModel) :
  document_ok root = true ->
  exists text,
    model_dump_json root = inr text
    /\ model_validate_json text = inr root
    /\ universal_newlines text = text
    /\ (forall path fs fs',
          write_text path text fs = (inr tt, fs') ->
          exists readable,
            fs' path = Some (File readable true text)
            /\ (readable = true ->
                (t <- read_text path ;; lift (model_validate_json t)) fs'
                = (inr root, fs'))).
Proof.
  intros Hok. exists (dump_document root).
  assert (Hnl : universal_newlines (dump_document root) = dump_document root)
    by apply universal_newlines_no_cr, no_cr_dump_document.
  split; [unfold model_dump_json; now rewrite Hok|].
  split; [apply validate_dump|]. split; [exact Hnl|].
  intros path fs fs' Hw. unfold write_text in Hw.
  destruct (fs path) as [[|r w j]|] eqn:E.
  - discriminate.
  - destruct w; [|discriminate]. injection Hw as <-.
    exists r. split; [apply update_same|]. intros ->.
    unfold bind, read_text, lift. rewrite update_same, Hnl, validate_dump. reflexivity.
  - injection Hw as <-. exists true. split; [apply update_same|]. intros _.
    unfold bind, read_text, lift. rewrite update_same, Hnl, validate_dump. reflexivity.
Qed.

Lemma dump_validate_roundtrip_witness :
  document_ok escapes_document = true
  /\ exists text,
    model_dump_json escapes_document = inr text
    /\ model_validate_json text = inr escapes_document
    /\ universal_newlines text = text
    /\ (forall path fs fs',
          write_text path text fs = (inr tt, fs') ->
          exists readable,
            fs' path = Some (File readable true text)
            /\ (readable = true ->
                (t <- read_text path ;; lift (model_validate_json t)) fs'
                = (inr escapes_document, fs'))).
Proof.
  exact (conj eq_refl (dump_validate_roundtrip escapes_document eq_refl)).
Defined.

Example validate_escapes_document :
  model_validate_json (dump_document escapes_document) = inr escapes_document.
Proof. vm_compute. reflexivity. Qed.

(** The reader takes the keys of an object in any order, skips keys it does
    not know, and refuses a missing field or a value of the wrong kind. *)
Example validate_other_layouts :
  let q := map (fun c => if (c =? 39)%N then quote else c) in
  model_validate_json
    (q (lit "[{'snippets': [], 'note': [1, true, null], 'categoryName': 'A'}]"))
  = inr [{| categoryName := lit "A"; snippets := [] |}]
  /\ model_validate_json (q (lit "[{'categoryName': 'A'}]")) = inl ValidationError
  /\ model_validate_json (q (lit "[{'categoryName': 1, 'snippets': []}]"))
     = inl ValidationError
  /\ model_validate_json (q (lit "{'categoryName': 'A', 'snippets': []}"))
     = inl ValidationError
  /\ model_validate_json (q (lit "[{'categoryName': 'A', 'snippets': []}")) 
     = inl ValidationError.
Proof. vm_compute. repeat split. Qed.

(** ** [save_category_to_json] and [run] *)

(** What [save_category_to_json] does, by the state of the output file. *)
Lemma save_category_to_json_cases (category_object : Category) (lang : str)
  (fs : filesystem) :
  save_category_to_json category_object lang fs =
  match fs (lang ++ lit ".json") with
  | Some (File true writable content) =>
      match model_validate_json (universal_newlines content) with
      | inl e => (inl e, fs)
      | inr root =>
          match model_dump_json (merge root category_object) with
          | inl e => (inl e, fs)
          | inr text =>
              if writable
              then (inr tt, update fs (lang ++ lit ".json") (File true true text))
              else (inl PermissionError, fs)
          end
      end
  | Some (File false _ _) => (inl PermissionError, fs)
  | Some Directory =>
      match model_dump_json [category_object] with
      | inl e => (inl e, fs)
      | inr _ => (inl IsADirectoryError, fs)
      end
  | None =>
      match model_dump_json [category_object] with
      | inl e => (inl e, fs)
      | inr text =>
          (inr tt, update fs (lang ++ lit ".json") (File true true text))
      end
  end.
Proof.
  unfold save_category_to_json, bind, exists_and_isfile, read_text, write_text,
    lift, ret.
  destruct (fs (lang ++ lit ".json")) as [[|r w j]|] eqn:E.
  - destruct (model_dump_json [category_object]); [reflexivity|]. now rewrite E.
  - rewrite E. destruct r; [|reflexivity].
    destruct (model_validate_json (universal_newlines j)); [reflexivity|].
    destruct (model_dump_json (merge j0 category_object)); [reflexivity|].
    rewrite E. destruct w; reflexivity.
  - destruct (model_dump_json [category_object]); [reflexivity|]. now rewrite E.
Qed.

(** A failed [save_category_to_json] leaves every file as it was. *)
Lemma save_category_to_json_failure (category_object : Category) (lang : str)
  (fs fs' : filesystem) (e : exn) :
  save_category_to_json category_object lang fs = (inl e, fs') -> fs' = fs.
Proof.
  rewrite save_category_to_json_cases.
  repeat match goal with
         | |- context [match ?x with _ => _ end] => destruct x
         end; intros H; congruence.
Qed.

Lemma get_file_content_cases (file_path : str) (fs : filesystem) :
  get_file_content file_path fs =
  (match fs file_path with
   | Some (File true _ content) => inr (universal_newlines content)
   | Some (File false _ _) => inl PermissionError
   | _ => inl FileNotFoundError
   end, fs).
Proof.
  unfold get_file_content, bind, exists_and_isfile, access_R_OK, read_text, raise.
  destruct (fs file_path) as [[|r w j]|] eqn:E; cbn; try reflexivity.
  rewrite E. destruct r; cbn; [now rewrite E|reflexivity].
Qed.

Lemma model_validate_json_error (text : str) (e : exn) :
  model_validate_json text = inl e -> e = ValidationError.
Proof.
  unfold model_validate_json.
  destruct (parse_json text) as [v|]; [|congruence].
  destruct (as_list as_category v); congruence.
Qed.

Section RunProperties.

Variable lower : str -> str.

(** C8: when the text does not parse, or the output file is there and its
    content does not validate, [run] prints the error and leaves every file
    as it was; and whenever [run] changes the file system, the text parsed,
    the document (new, or loaded and merged) was written out in full, and
    the change is that one write. *)
Theorem run_writes_only_on_success (argv : list str) (fs : filesystem) :
  (forall content,
      2 <= length argv ->
      fst (get_file_content (nth 1 argv []) fs) = inr content ->
      (parse_code content None = inl SyntaxError
       \/ exists writable j,
            fs (lower (snd (resolve_code_lang argv)) ++ lit ".json")
            = Some (File true writable j)
            /\ model_validate_json (universal_newlines j) = inl ValidationError) ->
      snd (run lower argv fs) = fs
      /\ exists e, fst (run lower argv fs)
                   = fst (resolve_code_lang argv) ++ [Printed e]
                   /\ (e = SyntaxError \/ e = ValidationError))
  /\ (snd (run lower argv fs) = fs
      \/ exists content cat root text,
           fst (get_file_content (nth 1 argv []) fs) = inr content
           /\ parse_code content None = inr cat
           /\ (root = [cat]
               \/ exists writable j loaded,
                    fs (lower (snd (resolve_code_lang argv)) ++ lit ".json")
                    = Some (File true writable j)
                    /\ model_validate_json (universal_newlines j) = inr loaded
                    /\ root = merge loaded cat)
           /\ model_dump_json root = inr text
           /\ snd (run lower argv fs)
              = update fs (lower (snd (resolve_code_lang argv)) ++ lit ".json")
                  (File true true text)).
Proof.
  split.
  - intros content Hargv Hread Hfail. unfold run.
    destruct (Nat.ltb_spec (length argv) 2) as [?|_]; [lia|].
    rewrite get_file_content_cases in *. cbn [fst] in Hread. rewrite Hread.
    destruct (resolve_code_lang argv) as [warnings code_lang]. cbn [fst snd] in *.
    destruct (parse_code content None) as [e|cat] eqn:Hparse.
    + cbn [fst snd]. split; [reflexivity|]. exists e. split; [reflexivity|].
      left. now apply (parse_code_raises content None).
    + destruct Hfail as [?|(w & j & Hout & Hval)]; [discriminate|].
      rewrite save_category_to_json_cases, Hout, Hval. cbn [fst snd].
      split; [reflexivity|]. exists ValidationError. auto.
  - unfold run. destruct (length argv <? 2); [now left|].
    rewrite get_file_content_cases. cbn [fst].
    destruct (match fs (nth 1 argv []) with
              | Some (File true _ content) => inr (universal_newlines content)
              | Some (File false _ _) => inl PermissionError
              | _ => inl FileNotFoundError
              end) as [e|content] eqn:Hread; [now left|].
    destruct (resolve_code_lang argv) as [warnings code_lang]. cbn [fst snd].
    destruct (parse_code content None) as [e|cat] eqn:Hparse; [now left|].
    rewrite save_category_to_json_cases.
    destruct (fs (lower code_lang ++ lit ".json")) as [[|r w j]|] eqn:Hout.
    + left. destruct (model_dump_json [cat]); reflexivity.
    + destruct r; [|now left].
      destruct (model_validate_json (universal_newlines j)) as [e|loaded] eqn:Hval;
        [now left|].
      destruct (model_dump_json (merge loaded cat)) as [e|text] eqn:Hdump;
        [now left|].
      destruct w; [|now left]. right.
      exists content, cat, (merge loaded cat), text.
      split; [reflexivity|]. split; [assumption|].
      split; [right; exists true, j, loaded; auto|]. split; [assumption|reflexivity].
    + destruct (model_dump_json [cat]) as [e|text] eqn:Hdump; [now left|].
      right. exists content, cat, [cat], text.
      split; [reflexivity|]. split; [assumption|].
      split; [now left|]. split; [assumption|reflexivity].
Qed.

End RunProperties.

(** An input of six lines, and an input that parses beside an output file
    that holds no document: nothing is written. *)
Lemma run_writes_only_on_success_witness :
  (snd (run ascii_lower scenario_argv
          (files (join [nl] (firstn 6 scenario_lines)) None))
   = files (join [nl] (firstn 6 scenario_lines)) None
   /\ exists e,
        fst (run ascii_lower scenario_argv
               (files (join [nl] (firstn 6 scenario_lines)) None))
        = fst (resolve_code_lang scenario_argv) ++ [Printed e]
        /\ (e = SyntaxError \/ e = ValidationError))
  /\ (snd (run ascii_lower scenario_argv (files scenario_text (Some [lbrace])))
      = files scenario_text (Some [lbrace])
      /\ exists e,
           fst (run ascii_lower scenario_argv (files scenario_text (Some [lbrace])))
           = fst (resolve_code_lang scenario_argv) ++ [Printed e]
           /\ (e = SyntaxError \/ e = ValidationError)).
Proof.
  split.
  - apply (proj1 (run_writes_only_on_success ascii_lower scenario_argv
                    (files (join [nl] (firstn 6 scenario_lines)) None))
             (join [nl] (firstn 6 scenario_lines))).
    + simpl. lia.
    + reflexivity.
    + left. reflexivity.
  - apply (proj1 (run_writes_only_on_success ascii_lower scenario_argv
                    (files scenario_text (Some [lbrace])))
             scenario_text).
    + simpl. lia.
    + reflexivity.
    + right. exists true, [lbrace]. split; reflexivity.
Defined.

(** The merge scenario, run: the output file ends up holding the merged
    document, and reading it back gives that document. *)
Example run_scenario :
  let fs := files scenario_text (Some (dump_document math_document)) in
  fst (run ascii_lower scenario_argv fs) = []
  /\ snd (run ascii_lower scenario_argv fs) (lit "python.json")
     = Some (File true true
               (dump_document (merge math_document scenario_category)))
  /\ snd (run ascii_lower scenario_argv (files scenario_text None)) (lit "python.json")
     = Some (File true true (dump_document [scenario_category])).
Proof. vm_compute. repeat split. Qed.

Example run_corrupt_output :
  run ascii_lower scenario_argv (files scenario_text (Some [lbrace]))
  = ([Printed ValidationError], files scenario_text (Some [lbrace])).
Proof. reflexivity. Qed.

(** ** The merge, as [save_category_to_json] performs it *)

(** C1: when a category of the document has the name of the new one, the
    first such category gets the new snippets after its own, in their order,
    and nothing else changes; when none has, the new category becomes the
    last entry and the earlier entries stay as they are; one of the two is
    the case.  [save_category_to_json] writes this merged document over the
    output file the document was loaded from. *)
Theorem merge_correct (root : JSONModel) (category_object : Category) :
  (forall pre category post,
      root = pre ++ category :: post ->
      Forall (fun x => categoryName x <> categoryName category_object) pre ->
      categoryName category = categoryName category_object ->
      merge root category_object
      = pre ++ {| categoryName := categoryName category;
                  snippets := snippets category ++ snippets category_object |}
            :: post)
  /\ (Forall (fun x => categoryName x <> categoryName category_object) root ->
      merge root category_object = root ++ [category_object])
  /\ ((exists pre category post,
          root = pre ++ category :: post
          /\ Forall (fun x => categoryName x <> categoryName category_object) pre
          /\ categoryName category = categoryName category_object)
      \/ Forall (fun x => categoryName x <> categoryName category_object) root)
  /\ (forall lang fs content text,
        fs (lang ++ lit ".json") = Some (File true true content) ->
        model_validate_json (universal_newlines content) = inr root ->
        model_dump_json (merge root category_object) = inr text ->
        save_category_to_json category_object lang fs
        = (inr tt, update fs (lang ++ lit ".json") (File true true text))
        /\ model_validate_json (universal_newlines text)
           = inr (merge root category_object)).
Proof.
  split; [|split; [|split]].
  - intros pre category post -> Hpre Hc. unfold merge.
    now rewrite merge_loop_some.
  - intros Hno. unfold merge. now rewrite merge_loop_none.
  - apply first_match.
  - intros lang fs content text Hout Hval Hdump.
    rewrite save_category_to_json_cases, Hout, Hval, Hdump.
    split; [reflexivity|]. unfold model_dump_json in Hdump.
    destruct (document_ok (merge root category_object)); [|discriminate].
    injection Hdump as <-.
    rewrite universal_newlines_no_cr by apply no_cr_dump_document.
    apply validate_dump.
Qed.

(** * Further properties of the converter *)

(** ** [get_code_lang] *)

Lemma count_char (c : char) (s : str) : count [c] s = count_occ N.eq_dec s c.
Proof.
  unfold count. induction s as [|x s IH]; [reflexivity|]. simpl.
  destruct (N.eqb_spec c x) as [->|Hne].
  - destruct (N.eq_dec x x); [|congruence]. simpl. now rewrite IH.
  - destruct (N.eq_dec x c); [congruence|]. exact IH.
Qed.

Lemma count_zero (c : char) (s : str) : (count [c] s =? 0) = true <-> ~ In c s.
Proof.
  rewrite count_char, Nat.eqb_eq. symmetry. apply count_occ_not_In.
Qed.

Lemma count_nonzero (c : char) (s : str) : In c s -> (count [c] s =? 0) = false.
Proof.
  intros H. apply not_true_is_false. intros E. now apply count_zero in E.
Qed.

(** Splitting at a separator splits what stands before it and what stands
    after it. *)
Lemma split_app (c : char) (a b : str) :
  split [c] (a ++ c :: b) = split [c] a ++ split [c] b.
Proof.
  induction a as [|x a IH].
  - simpl app. rewrite split_cons, N.eqb_refl. reflexivity.
  - simpl app. rewrite !split_cons, IH.
    destruct (N.eqb c x); [reflexivity|].
    pose proof (split_not_nil c a).
    destruct (split [c] a); [congruence|reflexivity].
Qed.

Lemma last_app_r {A} (l l' : list A) (d : A) : l' <> [] -> last (l ++ l') d = last l' d.
Proof.
  intros H. induction l as [|x l IH]; [reflexivity|].
  simpl app. destruct (l ++ l') eqn:E.
  - apply app_eq_nil in E as [_ ?]. congruence.
  - exact IH.
Qed.

(** The last piece of a split is what follows the last separator. *)
Lemma last_split (c : char) (a b : str) :
  ~ In c b -> last (split [c] (a ++ c :: b)) [] = b.
Proof.
  intros Hb. rewrite split_app, last_app_r by apply split_not_nil.
  now rewrite split_no_sep_id.
Qed.

Lemma dict_get_recognized (ext l : str) :
  dict_get RECOGNIZED_LANGUAGES ext = Some l
  <-> (ext = lit "py" /\ l = lit "python")
      \/ (ext = lit "js" /\ l = lit "javascript").
Proof.
  unfold RECOGNIZED_LANGUAGES. cbn [dict_get].
  destruct (Str.eqb (lit "py") ext) eqn:E1.
  - apply eqb_eq in E1. subst ext. split.
    + intros H. injection H as <-. now left.
    + intros [[_ ->]|[H _]]; [reflexivity|discriminate].
  - destruct (Str.eqb (lit "js") ext) eqn:E2.
    + apply eqb_eq in E2. subst ext. split.
      * intros H. injection H as <-. now right.
      * intros [[H _]|[_ ->]]; [discriminate|reflexivity].
    + apply eqb_neq in E1, E2. split; [discriminate|].
      intros [[-> _]|[-> _]]; congruence.
Qed.

(** X1: the language of a path is decided by what follows the last dot of
    its last component, compared as it is written: [py] gives python, [js]
    gives javascript, anything else nothing.  The directory part and the
    dots of the stem play no role. *)
Theorem get_code_lang_extension (dir stem ext : str) :
  dir = [] \/ (exists d, dir = d ++ [slash]) ->
  ~ In slash stem -> ~ In slash ext -> ~ In dot ext ->
  get_code_lang (dir ++ stem ++ dot :: ext) = dict_get RECOGNIZED_LANGUAGES ext
  /\ (forall l, get_code_lang (dir ++ stem ++ dot :: ext) = Some l
                <-> (ext = lit "py" /\ l = lit "python")
                    \/ (ext = lit "js" /\ l = lit "javascript")).
Proof.
  intros Hdir Hstem Hext Hdot.
  assert (Hname : ~ In slash (stem ++ dot :: ext)).
  { intros H. apply in_app_or in H as [H|[H|H]]; auto. discriminate. }
  assert (E : get_code_lang (dir ++ stem ++ dot :: ext)
              = dict_get RECOGNIZED_LANGUAGES ext).
  { unfold get_code_lang. destruct Hdir as [->|[d ->]].
    - change ([] ++ stem ++ dot :: ext) with (stem ++ dot :: ext).
      rewrite (proj2 (count_zero slash _) Hname). cbv iota.
      change (lit "./" ++ stem ++ dot :: ext)
        with ([dot] ++ slash :: (stem ++ dot :: ext)).
      rewrite (last_split slash [dot]) by assumption.
      rewrite (count_nonzero dot) by (simpl; auto). cbv iota.
      now rewrite last_split.
    - rewrite <- app_assoc. cbn [app].
      rewrite (count_nonzero slash) by (apply in_elt). cbv iota.
      rewrite (last_split slash d) by assumption.
      rewrite (count_nonzero dot)
        by (apply in_or_app; right; right; apply in_elt).
      cbv iota. now rewrite last_split. }
  split; [exact E|]. intros l. rewrite E. apply dict_get_recognized.
Qed.

Lemma get_code_lang_extension_witness :
  get_code_lang (lit "src/snippets/" ++ lit "sqlite.v2" ++ dot :: lit "py")
  = dict_get RECOGNIZED_LANGUAGES (lit "py")
  /\ (forall l, get_code_lang (lit "src/snippets/" ++ lit "sqlite.v2" ++ dot :: lit "py")
                = Some l
                <-> (lit "py" = lit "py" /\ l = lit "python")
                    \/ (lit "py" = lit "js" /\ l = lit "javascript")).
Proof.
  apply (get_code_lang_extension (lit "src/snippets/") (lit "sqlite.v2") (lit "py")).
  - right. exists (lit "src/snippets"). reflexivity.
  - simpl. intuition discriminate.
  - simpl. intuition discriminate.
  - simpl. intuition discriminate.
Defined.

(** X2: a path without any dot.  With a slash in it, no language is found.
    Without a slash, the dot check is made after [./] was put before the
    path, so it never applies, and the whole name is taken for the
    extension: the file named [py] is a python file. *)
Theorem get_code_lang_no_dot (file_path : str) :
  ~ In dot file_path ->
  (In slash file_path -> get_code_lang file_path = None)
  /\ (~ In slash file_path ->
      get_code_lang file_path = dict_get RECOGNIZED_LANGUAGES file_path).
Proof.
  intros Hdot. unfold get_code_lang. split; intros Hs.
  - rewrite (count_nonzero slash) by assumption. cbv iota.
    now rewrite (proj2 (count_zero dot _) Hdot).
  - rewrite (proj2 (count_zero slash _) Hs). cbv iota.
    change (lit "./" ++ file_path) with ([dot] ++ slash :: file_path).
    rewrite (last_split slash [dot]) by assumption.
    rewrite (count_nonzero dot) by (simpl; auto). cbv iota.
    now rewrite split_no_sep_id.
Qed.

Lemma get_code_lang_no_dot_witness :
  (In slash (lit "py") -> get_code_lang (lit "py") = None)
  /\ (~ In slash (lit "py") ->
      get_code_lang (lit "py") = dict_get RECOGNIZED_LANGUAGES (lit "py")).
Proof.
  apply (get_code_lang_no_dot (lit "py")). simpl. intuition discriminate.
Defined.

Example get_code_lang_samples :
  get_code_lang (lit "py") = Some (lit "python")
  /\ get_code_lang (lit "bin/py") = None
  /\ get_code_lang (lit "v1.2/py") = Some (lit "python")
  /\ get_code_lang (lit "a.PY") = None
  /\ get_code_lang (lit "a.py/") = None
  /\ get_code_lang (lit ".js") = Some (lit "javascript").
Proof. repeat split. Qed.

(** ** [get_file_content] *)


Lemma no_cr_universal_newlines_upto (n : nat) (s : str) :
  length s <= n -> no_cr (universal_newlines s) = true.
Proof.
  revert s; induction n as [|n IH]; intros s Hn.
  - destruct s; [reflexivity|simpl in Hn; lia].
  - destruct s as [|c s]; [reflexivity|]. simpl in Hn. simpl universal_newlines.
    destruct (N.eqb_spec c 13) as [->|Hc].
    + destruct s as [|d s]; [reflexivity|]. simpl in Hn.
      destruct (d =? 10)%N.
      * change (no_cr (nl :: ?x)) with (no_cr x). apply IH. lia.
      * change (no_cr (nl :: ?x)) with (no_cr x). apply IH. simpl. lia.
    + simpl. apply N.eqb_neq in Hc. rewrite Hc. simpl. apply IH. lia.
Qed.

Lemma no_cr_universal_newlines (s : str) : no_cr (universal_newlines s) = true.
Proof. apply (no_cr_universal_newlines_upto (length s)). lia. Qed.

(** X4: the text [get_file_content] returns holds no carriage return,
    whatever line ends the file has, and reading it once more as text would
    not change it. *)
Theorem get_file_content_newlines (file_path : str) (fs : filesystem) (text : str) :
  fst (get_file_content file_path fs) = inr text ->
  ~ In cr text /\ universal_newlines text = text.
Proof.
  rewrite get_file_content_cases. cbn [fst].
  destruct (fs file_path) as [[|[|] w j]|]; try discriminate.
  intros H. injection H as <-.
  pose proof (no_cr_universal_newlines j) as Hn. split.
  - intros Hin. unfold no_cr in Hn. rewrite forallb_forall in Hn.
    specialize (Hn cr Hin). discriminate.
  - now apply universal_newlines_no_cr.
Qed.

Lemma get_file_content_newlines_witness :
  fst (get_file_content (lit "snippet.py") (files crlf_text None)) = inr scenario_text
  /\ ~ In cr scenario_text /\ universal_newlines scenario_text = scenario_text.
Proof.
  assert (H : fst (get_file_content (lit "snippet.py") (files crlf_text None))
              = inr scenario_text) by reflexivity.
  exact (conj H (get_file_content_newlines _ _ _ H)).
Defined.

(** ** [parse_code]: more *)

(** X5: given a category, [parse_code] keeps its name and its snippets and
    puts the new snippet after them; line 0 of the text is then not used.
    The snippet is the one the text parses to on its own, so parsing a
    second text into the category of a first collects both snippets in
    order. *)
Theorem parse_code_into_category (text : str) (category : Category) :
  7 <= length (split [nl] text) ->
  exists sn,
    parse_code text None
    = inr {| categoryName := format_metadata (line_at (split [nl] text) 0);
             snippets := [sn] |}
    /\ parse_code text (Some category)
       = inr {| categoryName := categoryName category;
                snippets := snippets category ++ [sn] |}
    /\ (forall text' l0 l0' rest,
          split [nl] text = l0 :: rest ->
          split [nl] text' = l0' :: rest ->
          parse_code text' (Some category) = parse_code text (Some category)).
Proof.
  intros H.
  assert (H0 : forall text' l0 l0' rest,
             split [nl] text = l0 :: rest ->
             split [nl] text' = l0' :: rest ->
             parse_code text' (Some category) = parse_code text (Some category)).
  { intros text' l0 l0' rest E E'. rewrite !parse_code_eq. cbv zeta.
    rewrite E, E'. reflexivity. }
  rewrite !parse_code_eq. cbv zeta.
  destruct (Nat.ltb_spec (length (split [nl] text)) 7) as [Hlt|_]; [lia|].
  eexists. split; [reflexivity|]. split; [reflexivity|].
  intros text' l0 l0' rest E E'. rewrite (H0 text' l0 l0' rest E E').
  rewrite parse_code_eq. cbv zeta.
  destruct (Nat.ltb_spec (length (split [nl] text)) 7) as [Hlt|_]; [lia|reflexivity].
Qed.

Lemma parse_code_into_category_witness :
  7 <= length (split [nl] scenario_text)
  /\ exists sn,
    parse_code scenario_text None
    = inr {| categoryName := format_metadata (line_at (split [nl] scenario_text) 0);
             snippets := [sn] |}
    /\ parse_code scenario_text (Some {| categoryName := lit "Sums"; snippets := [prior_snippet] |})
       = inr {| categoryName := lit "Sums";
                snippets := [prior_snippet] ++ [sn] |}
    /\ (forall text' l0 l0' rest,
          split [nl] scenario_text = l0 :: rest ->
          split [nl] text' = l0' :: rest ->
          parse_code text' (Some {| categoryName := lit "Sums"; snippets := [prior_snippet] |})
          = parse_code scenario_text (Some {| categoryName := lit "Sums"; snippets := [prior_snippet] |})).
Proof.
  assert (H : 7 <= length (split [nl] scenario_text)) by (vm_compute; lia).
  exact (conj H (parse_code_into_category scenario_text
                   {| categoryName := lit "Sums"; snippets := [prior_snippet] |} H)).
Defined.

(** What the string operations keep: a property of all characters. *)
Section Characters.

Variable P : char -> Prop.

Lemma Forall_strip (s : str) : Forall P s -> Forall P (strip s).
Proof.
  intros H. destruct (strip_spec s) as (a & b & E & _).
  rewrite E in H. apply Forall_app in H as [_ H]. now apply Forall_app in H as [H _].
Qed.

Lemma Forall_removes_first (p s r : str) :
  removes_first p s r -> Forall P s -> Forall P r.
Proof.
  intros [[_ E]|(a & b & Es & _ & Er)] H; subst; [assumption|].
  apply Forall_app in H as [Ha H]. apply Forall_app in H as [_ Hb].
  apply Forall_app. auto.
Qed.

Lemma Forall_format_metadata (line : str) :
  Forall P line -> Forall P (format_metadata line).
Proof.
  intros H. destruct (format_metadata_spec_of line) as (a & b & H1 & H2 & H3).
  apply (Forall_removes_first _ _ _ H1) in H.
  apply (Forall_removes_first _ _ _ H2) in H.
  destruct H3 as (x & y & E & _). subst b.
  apply Forall_app in H as [_ H]. now apply Forall_app in H as [H _].
Qed.

Lemma Forall_split (c : char) (s : str) :
  Forall P s -> Forall (Forall P) (split [c] s).
Proof.
  induction s as [|x s IH]; intros H; [repeat constructor|].
  inversion H as [|? ? Hx Hs]; subst. specialize (IH Hs).
  rewrite split_cons. destruct (N.eqb c x); [constructor; auto|].
  destruct (split [c] s) as [|seg segs]; [repeat constructor; auto|].
  inversion IH; subst. constructor; auto.
Qed.

Lemma Forall_line_at (code_lines : list str) (i : nat) :
  Forall (Forall P) code_lines -> Forall P (line_at code_lines i).
Proof.
  intros H. unfold line_at. destruct (nth_in_or_default i code_lines []) as [Hin | ->].
  - rewrite Forall_forall in H. now apply H.
  - constructor.
Qed.

Lemma Forall_skipn {A} (Q : A -> Prop) (n : nat) (l : list A) :
  Forall Q l -> Forall Q (skipn n l).
Proof.
  intros H. rewrite <- (firstn_skipn n l) in H. now apply Forall_app in H as [_ H].
Qed.

Lemma Forall_map_strip (l : list str) :
  Forall (Forall P) l -> Forall (Forall P) (map strip l).
Proof.
  induction 1; simpl; constructor; auto using Forall_strip.
Qed.

(** What holds of every character of every line holds of every character
    the category stores. *)
Lemma parse_code_category_all (text : str) (cat : Category) :
  Forall (Forall P) (split [nl] text) ->
  parse_code text None = inr cat -> category_all P cat.
Proof.
  intros HP. rewrite parse_code_eq. cbv zeta.
  destruct (length (split [nl] text) <? 7); [discriminate|].
  intros H. injection H as <-. unfold category_all.
  cbn [categoryName snippets app].
  split; [apply Forall_format_metadata, Forall_line_at, HP|].
  constructor; [|constructor]. unfold snippet_all.
  cbn [title description code tags author].
  split; [apply Forall_format_metadata, Forall_line_at, HP|].
  split; [apply Forall_format_metadata, Forall_line_at, HP|].
  split; [apply (Forall_skipn (Forall P) 6 (split [nl] text)), HP|].
  split; [|apply Forall_format_metadata, Forall_line_at, HP].
  apply Forall_map_strip, Forall_split, Forall_format_metadata, Forall_line_at, HP.
Qed.

End Characters.

Lemma Forall_neq_not_In (c : char) (s : str) :
  Forall (fun x => x <> c) s <-> ~ In c s.
Proof.
  rewrite Forall_forall. split.
  - intros H Hin. now apply (H c).
  - intros H x Hin ->. auto.
Qed.

Lemma lines_no_newline (text : str) :
  Forall (Forall (fun x => x <> nl)) (split [nl] text).
Proof.
  pose proof (split_no_sep nl text) as H.
  induction H; constructor; auto. now apply Forall_neq_not_In.
Qed.

(** X6: no string of a parsed category holds a newline: not its name, not a
    title, description, tag or author, not a line of code. *)
Theorem parse_code_no_newline (text : str) (cat : Category) :
  parse_code text None = inr cat ->
  category_all (fun c => c <> nl) cat.
Proof.
  intros H. apply (parse_code_category_all _ text); [apply lines_no_newline|exact H].
Qed.

Lemma parse_code_no_newline_witness :
  category_all (fun c => c <> nl) scenario_category.
Proof.
  apply (parse_code_no_newline scenario_text). reflexivity.
Defined.

Lemma forallb_Forall_true {A} (p : A -> bool) (l : list A) :
  forallb p l = true <-> Forall (fun x => p x = true) l.
Proof.
  rewrite forallb_forall, Forall_forall. reflexivity.
Qed.

Lemma Forall_text_ok (l : list str) :
  Forall (Forall (fun c => is_scalar c = true)) l -> forallb text_ok l = true.
Proof.
  intros H. apply forallb_Forall_true.
  induction H; constructor; auto. now apply forallb_Forall_true.
Qed.

Lemma category_all_ok (cat : Category) :
  category_all (fun c => is_scalar c = true) cat -> category_ok cat = true.
Proof.
  intros [Hn Hs]. unfold category_ok. unfold text_ok at 1.
  rewrite (proj2 (forallb_Forall_true _ _) Hn). simpl.
  apply forallb_Forall_true. induction Hs as [|sn l (Ht & Hd & Hc & Hg & Ha) _ IH];
    constructor; auto.
  unfold snippet_ok. rewrite (Forall_text_ok _ Hc), (Forall_text_ok _ Hg).
  unfold text_ok.
  rewrite (proj2 (forallb_Forall_true _ _) Ht), (proj2 (forallb_Forall_true _ _) Hd),
    (proj2 (forallb_Forall_true _ _) Ha).
  reflexivity.
Qed.

Lemma parse_code_ok (text : str) (cat : Category) :
  text_ok text = true -> parse_code text None = inr cat -> category_ok cat = true.
Proof.
  intros Ht H. apply category_all_ok.
  apply (parse_code_category_all _ text); [|exact H].
  apply Forall_split. now apply forallb_Forall_true.
Qed.

(** X7: [parse_code] stores nothing but characters of the text, so the
    category parsed from Unicode text can always be written: dumping the
    document that holds it raises no serialization error, and the written
    text validates back to that document. *)
Theorem parse_code_serializable (text : str) (cat : Category) :
  text_ok text = true ->
  parse_code text None = inr cat ->
  category_ok cat = true
  /\ model_dump_json [cat] = inr (dump_document [cat])
  /\ model_validate_json (dump_document [cat]) = inr [cat].
Proof.
  intros Ht H. pose proof (parse_code_ok text cat Ht H) as Hok.
  split; [exact Hok|]. split; [|apply validate_dump].
  unfold model_dump_json, document_ok. simpl. now rewrite Hok.
Qed.

Lemma parse_code_serializable_witness :
  category_ok scenario_category = true
  /\ model_dump_json [scenario_category] = inr (dump_document [scenario_category])
  /\ model_validate_json (dump_document [scenario_category]) = inr [scenario_category].
Proof.
  apply (parse_code_serializable scenario_text); reflexivity.
Defined.

Lemma trimmed_strip (s : str) : trimmed (strip s).
Proof. destruct (strip_spec s) as (a & b & _ & _ & _ & H). exact H. Qed.

Lemma tags_trimmed (line : str) :
  Forall (fun t => trimmed t /\ ~ In comma t) (map strip (split [comma] line)).
Proof.
  pose proof (split_no_sep comma line) as H.
  induction H as [|seg segs Hseg _ IH]; simpl; constructor; auto.
  split; [apply trimmed_strip|].
  apply Forall_neq_not_In, Forall_strip. now apply Forall_neq_not_In.
Qed.

(** X8: the name of a parsed category and the title, description and author
    of its snippet neither start nor end with whitespace; the snippet has at
    least one tag, and every tag is free of commas and of whitespace at its
    ends. *)
Theorem parse_code_fields_trimmed (text : str) (cat : Category) :
  parse_code text None = inr cat ->
  trimmed (categoryName cat)
  /\ exists sn,
       snippets cat = [sn]
       /\ trimmed (title sn) /\ trimmed (description sn) /\ trimmed (author sn)
       /\ tags sn <> []
       /\ Forall (fun t => trimmed t /\ ~ In comma t) (tags sn).
Proof.
  rewrite parse_code_eq. cbv zeta.
  destruct (length (split [nl] text) <? 7); [discriminate|].
  intros H. injection H as <-. cbn [categoryName snippets app].
  split; [apply trimmed_strip|]. eexists. split; [reflexivity|].
  cbn [title description author tags].
  repeat (split; [apply trimmed_strip|]).
  split; [|apply tags_trimmed].
  intros E. apply map_eq_nil in E. now apply split_not_nil in E.
Qed.

Lemma parse_code_fields_trimmed_witness :
  trimmed (categoryName scenario_category)
  /\ exists sn,
       snippets scenario_category = [sn]
       /\ trimmed (title sn) /\ trimmed (description sn) /\ trimmed (author sn)
       /\ tags sn <> []
       /\ Forall (fun t => trimmed t /\ ~ In comma t) (tags sn).
Proof.
  apply (parse_code_fields_trimmed scenario_text). reflexivity.
Defined.

(** A blank tag line gives one empty tag, not an empty list. *)
Example parse_code_blank_tags :
  exists cat sn,
    parse_code (join [nl] [lit "A"; lit "B"; lit "C"; lit "  "; lit "D"; lit ""; lit "x"]) None
    = inr cat
    /\ snippets cat = [sn] /\ tags sn = [lit ""].
Proof. eexists. eexists. repeat split. Qed.

(** ** The merge: more *)

Lemma merge_nil (c : Category) : merge [] c = [c].
Proof. reflexivity. Qed.

(** The merge, one category of the document at a time. *)
Lemma merge_cons (x : Category) (root : JSONModel) (c : Category) :
  merge (x :: root) c =
  if Str.eqb (categoryName x) (categoryName c)
  then {| categoryName := categoryName x;
          snippets := snippets x ++ snippets c |} :: root
  else x :: merge root c.
Proof.
  unfold merge. simpl. destruct (Str.eqb (categoryName x) (categoryName c)); simpl.
  - now rewrite fold_append.
  - destruct (merge_loop root c); reflexivity.
Qed.

Lemma has_name_cons (name : str) (x : Category) (root : JSONModel) :
  has_name name (x :: root) <-> categoryName x = name \/ has_name name root.
Proof. reflexivity. Qed.

(** X9: a merge loses no snippet and doubles none: the snippets of the
    merged document are those of the document and those of the new
    category; and the document grows by one category exactly when the name
    is new. *)
Theorem merge_keeps_snippets (root : JSONModel) (category_object : Category) :
  Permutation (flat_map snippets (merge root category_object))
              (flat_map snippets root ++ snippets category_object)
  /\ (has_name (categoryName category_object) root ->
      length (merge root category_object) = length root)
  /\ (~ has_name (categoryName category_object) root ->
      length (merge root category_object) = S (length root)).
Proof.
  induction root as [|x root (IHp & IHin & IHout)].
  - rewrite merge_nil. simpl. rewrite app_nil_r. repeat split; auto.
    intros [].
  - rewrite merge_cons.
    destruct (Str.eqb (categoryName x) (categoryName category_object)) eqn:E.
    + apply eqb_eq in E. split; [|split].
      * simpl. rewrite <- !app_assoc. apply Permutation_app_head, Permutation_app_comm.
      * reflexivity.
      * intros H. exfalso. apply H. now left.
    + apply eqb_neq in E. split; [|split].
      * simpl. rewrite <- app_assoc. now apply Permutation_app_head.
      * intros [H|H]; [congruence|]. simpl. now rewrite IHin.
      * intros H. simpl. rewrite IHout; [reflexivity|]. intros H'. apply H. now right.
Qed.

(** X10: merging two categories of one name, one after the other, is
    merging the one category that holds the snippets of both. *)
Theorem merge_twice_same_name (root : JSONModel) (c1 c2 : Category) :
  categoryName c1 = categoryName c2 ->
  merge (merge root c1) c2
  = merge root {| categoryName := categoryName c1;
                  snippets := snippets c1 ++ snippets c2 |}.
Proof.
  intros Hn. induction root as [|x root IH].
  - rewrite !merge_nil, merge_cons.
    now rewrite (proj2 (eqb_eq _ _) Hn).
  - rewrite !(merge_cons x). cbn [categoryName].
    destruct (Str.eqb (categoryName x) (categoryName c1)) eqn:E.
    + rewrite merge_cons. cbn [categoryName snippets]. rewrite <- Hn, E.
      now rewrite <- app_assoc.
    + rewrite merge_cons. rewrite <- Hn, E. now rewrite IH.
Qed.

Lemma merge_twice_same_name_witness :
  merge (merge math_document scenario_category)
        {| categoryName := lit "Math"; snippets := [prior_snippet] |}
  = merge math_document
      {| categoryName := categoryName scenario_category;
         snippets := snippets scenario_category ++ [prior_snippet] |}.
Proof.
  apply (merge_twice_same_name math_document scenario_category
           {| categoryName := lit "Math"; snippets := [prior_snippet] |}).
  reflexivity.
Defined.

(** X11: two categories of different names, at least one of which the
    document already has, can be merged in either order. *)
Theorem merge_commutes (root : JSONModel) (c1 c2 : Category) :
  categoryName c1 <> categoryName c2 ->
  has_name (categoryName c1) root \/ has_name (categoryName c2) root ->
  merge (merge root c1) c2 = merge (merge root c2) c1.
Proof.
  intros Hne. induction root as [|x root IH]; intros Hin.
  - destruct Hin as [[]|[]].
  - rewrite !(merge_cons x).
    destruct (Str.eqb (categoryName x) (categoryName c1)) eqn:E1;
      destruct (Str.eqb (categoryName x) (categoryName c2)) eqn:E2.
    + apply eqb_eq in E1, E2. congruence.
    + rewrite !merge_cons. cbn [categoryName]. now rewrite E1, E2.
    + rewrite !merge_cons. cbn [categoryName]. now rewrite E1, E2.
    + rewrite !merge_cons, E1, E2. f_equal. apply IH.
      apply eqb_neq in E1, E2.
      destruct Hin as [[H|H]|[H|H]]; try congruence; auto.
Qed.

Lemma merge_commutes_witness :
  merge (merge math_document scenario_category)
        {| categoryName := lit "Files"; snippets := [prior_snippet] |}
  = merge (merge math_document
                 {| categoryName := lit "Files"; snippets := [prior_snippet] |})
          scenario_category.
Proof.
  apply (merge_commutes math_document scenario_category
           {| categoryName := lit "Files"; snippets := [prior_snippet] |}).
  - discriminate.
  - left. unfold has_name. simpl. auto.
Defined.

(** Two new names end up in the order of the merges. *)
Example merge_new_names_order :
  merge (merge [] scenario_category) {| categoryName := lit "Files"; snippets := [] |}
  <> merge (merge [] {| categoryName := lit "Files"; snippets := [] |}) scenario_category.
Proof. discriminate. Qed.

(** ** [save_category_to_json]: more *)

Lemma update_other (fs : filesystem) (path p : str) (n : node) :
  p <> path -> update fs path n p = fs p.
Proof.
  intros H. unfold update. now rewrite (proj2 (eqb_neq p path) H).
Qed.

Lemma snippets_ok_app (l l' : list Snippet) :
  forallb snippet_ok (l ++ l') = forallb snippet_ok l && forallb snippet_ok l'.
Proof. apply forallb_app. Qed.

(** A document that can be written can still be written after a category
    that can be written was merged into it. *)
Lemma document_ok_merge (root : JSONModel) (c : Category) :
  document_ok root = true -> category_ok c = true ->
  document_ok (merge root c) = true.
Proof.
  intros Hr Hc. induction root as [|x root IH].
  - rewrite merge_nil. simpl. now rewrite Hc.
  - simpl in Hr. apply andb_true_iff in Hr as [Hx Hr]. rewrite merge_cons.
    destruct (Str.eqb (categoryName x) (categoryName c)).
    + change (document_ok (?y :: root)) with (category_ok y && document_ok root).
      rewrite Hr, andb_true_r. unfold category_ok in *. cbn [categoryName snippets].
      apply andb_true_iff in Hx as [Hn Hs]. apply andb_true_iff in Hc as [_ Hs'].
      now rewrite Hn, snippets_ok_app, Hs, Hs'.
    + change (document_ok (x :: ?r)) with (category_ok x && document_ok r).
      now rewrite Hx, IH.
Qed.

Lemma model_dump_json_ok (root : JSONModel) :
  document_ok root = true -> model_dump_json root = inr (dump_document root).
Proof. intros H. unfold model_dump_json. now rewrite H. Qed.

Lemma model_dump_json_inv (root : JSONModel) (text : str) :
  model_dump_json root = inr text ->
  document_ok root = true /\ text = dump_document root.
Proof.
  unfold model_dump_json. destruct (document_ok root); [|discriminate].
  intros H. injection H as <-. auto.
Qed.

Lemma validate_written (root : JSONModel) :
  model_validate_json (universal_newlines (dump_document root)) = inr root.
Proof.
  rewrite universal_newlines_no_cr by apply no_cr_dump_document. apply validate_dump.
Qed.

(** [save_category_to_json] leaves every path but the output file alone. *)
Lemma save_category_to_json_frame (c : Category) (lang : str) (fs : filesystem)
  (p : str) :
  p <> output_of lang -> snd (save_category_to_json c lang fs) p = fs p.
Proof.
  intros Hp. rewrite save_category_to_json_cases.
  repeat match goal with
         | |- context [match ?x with _ => _ end] => destruct x
         end; cbn [snd]; try reflexivity; now apply update_other.
Qed.



(** X13: two saves in a row, into an output file that holds a document:
    both succeed, and the file then holds the document with the first
    category merged into it and the second merged into the result. *)
Theorem save_twice (c1 c2 : Category) (lang : str) (fs : filesystem)
  (content : str) (root : JSONModel) :
  fs (output_of lang) = Some (File true true content) ->
  model_validate_json (universal_newlines content) = inr root ->
  document_ok root = true -> category_ok c1 = true -> category_ok c2 = true ->
  exists fs1 fs2,
    save_category_to_json c1 lang fs = (inr tt, fs1)
    /\ save_category_to_json c2 lang fs1 = (inr tt, fs2)
    /\ fs2 (output_of lang)
       = Some (File true true (dump_document (merge (merge root c1) c2)))
    /\ (text <- read_text (output_of lang) ;; lift (model_validate_json text)) fs2
       = (inr (merge (merge root c1) c2), fs2)
    /\ (forall p, p <> output_of lang -> fs2 p = fs p).
Proof.
  intros Hout Hval Hr H1 H2. unfold output_of in *.
  pose proof (document_ok_merge root c1 Hr H1) as Hm1.
  pose proof (document_ok_merge _ c2 Hm1 H2) as Hm2.
  eexists. eexists. split.
  { rewrite save_category_to_json_cases, Hout, Hval, model_dump_json_ok by assumption.
    reflexivity. }
  split.
  { rewrite save_category_to_json_cases, update_same, validate_written,
      model_dump_json_ok by assumption.
    reflexivity. }
  split; [apply update_same|]. split.
  - unfold bind, read_text, lift. now rewrite update_same, validate_written.
  - intros p Hp. now rewrite !update_other.
Qed.

Lemma save_twice_witness :
  exists fs1 fs2,
    save_category_to_json scenario_category (lit "python")
      (files scenario_text (Some (dump_document math_document))) = (inr tt, fs1)
    /\ save_category_to_json scenario_category (lit "python") fs1 = (inr tt, fs2)
    /\ fs2 (output_of (lit "python"))
       = Some (File true true
                 (dump_document (merge (merge math_document scenario_category)
                                       scenario_category)))
    /\ (text <- read_text (output_of (lit "python")) ;; lift (model_validate_json text)) fs2
       = (inr (merge (merge math_document scenario_category) scenario_category), fs2)
    /\ (forall p, p <> output_of (lit "python") ->
                  fs2 p = files scenario_text (Some (dump_document math_document)) p).
Proof.
  apply (save_twice scenario_category scenario_category (lit "python")
           (files scenario_text (Some (dump_document math_document)))
           (dump_document math_document) math_document).
  - reflexivity.
  - apply validate_written.
  - reflexivity.
  - reflexivity.
  - reflexivity.
Defined.

(** X14: [save_category_to_json] touches the output file and nothing else;
    when it raises, it has changed nothing at all; when it returns, the
    output file is a readable, writable file holding a written document. *)
Theorem save_touches_output_only (category_object : Category) (lang : str)
  (fs : filesystem) :
  (forall p, p <> output_of lang ->
             snd (save_category_to_json category_object lang fs) p = fs p)
  /\ (forall e, fst (save_category_to_json category_object lang fs) = inl e ->
                snd (save_category_to_json category_object lang fs) = fs)
  /\ (fst (save_category_to_json category_object lang fs) = inr tt ->
      exists root,
        document_ok root = true
        /\ snd (save_category_to_json category_object lang fs)
           = update fs (output_of lang) (File true true (dump_document root))).
Proof.
  split; [intros p; apply save_category_to_json_frame|]. split.
  - intros e H.
    destruct (save_category_to_json category_object lang fs) as [r fs'] eqn:E.
    cbn [fst snd] in *. subst r. now apply save_category_to_json_failure in E.
  - rewrite save_category_to_json_cases. unfold output_of.
    destruct (fs (lang ++ lit ".json")) as [[|[|] w j]|]; cbn [fst snd].
    + destruct (model_dump_json [category_object]); discriminate.
    + destruct (model_validate_json (universal_newlines j)) as [e|root];
        [discriminate|].
      destruct (model_dump_json (merge root category_object)) as [e|text] eqn:Hd;
        [discriminate|].
      destruct w; [|discriminate]. intros _. cbn [snd].
      apply model_dump_json_inv in Hd as [Hok ->]. eauto.
    + discriminate.
    + destruct (model_dump_json [category_object]) as [e|text] eqn:Hd;
        [discriminate|].
      intros _. cbn [snd]. apply model_dump_json_inv in Hd as [Hok ->]. eauto.
Qed.

(** X15: what stands in the way of a save.  A directory under the name of
    the output file, an output file that cannot be read, and an output file
    that holds a document but cannot be written each make
    [save_category_to_json] raise, and the content that does not validate
    raises the validation error; in all four cases nothing is changed. *)
Theorem save_errors (category_object : Category) (lang : str) (fs : filesystem) :
  category_ok category_object = true ->
  (fs (output_of lang) = Some Directory ->
   save_category_to_json category_object lang fs = (inl IsADirectoryError, fs))
  /\ (forall writable content,
        fs (output_of lang) = Some (File false writable content) ->
        save_category_to_json category_object lang fs = (inl PermissionError, fs))
  /\ (forall content root,
        fs (output_of lang) = Some (File true false content) ->
        model_validate_json (universal_newlines content) = inr root ->
        document_ok root = true ->
        save_category_to_json category_object lang fs = (inl PermissionError, fs))
  /\ (forall writable content e,
        fs (output_of lang) = Some (File true writable content) ->
        model_validate_json (universal_newlines content) = inl e ->
        save_category_to_json category_object lang fs = (inl ValidationError, fs)).
Proof.
  intros Hok. unfold output_of. repeat split.
  - intros H. rewrite save_category_to_json_cases, H, model_dump_json_ok; [reflexivity|].
    simpl. now rewrite Hok.
  - intros w j H. now rewrite save_category_to_json_cases, H.
  - intros j root H Hval Hr.
    rewrite save_category_to_json_cases, H, Hval, model_dump_json_ok; [reflexivity|].
    now apply document_ok_merge.
  - intros w j e H Hval. rewrite save_category_to_json_cases, H, Hval.
    now rewrite (model_validate_json_error _ _ Hval).
Qed.

Lemma save_errors_witness :
  save_category_to_json scenario_category (lit "python") (beside Directory)
  = (inl IsADirectoryError, beside Directory)
  /\ save_category_to_json scenario_category (lit "python")
       (beside (File false true (dump_document math_document)))
     = (inl PermissionError, beside (File false true (dump_document math_document)))
  /\ save_category_to_json scenario_category (lit "python")
       (beside (File true false (dump_document math_document)))
     = (inl PermissionError, beside (File true false (dump_document math_document)))
  /\ save_category_to_json scenario_category (lit "python")
       (beside (File true true [lbrace]))
     = (inl ValidationError, beside (File true true [lbrace])).
Proof.
  split; [|split; [|split]].
  - apply (proj1 (save_errors scenario_category (lit "python")
                    (beside Directory) eq_refl)).
    reflexivity.
  - apply (proj1 (proj2 (save_errors scenario_category (lit "python")
                           (beside (File false true (dump_document math_document)))
                           eq_refl))
             true (dump_document math_document)).
    reflexivity.
  - apply (proj1 (proj2 (proj2 (save_errors scenario_category (lit "python")
                                  (beside (File true false (dump_document math_document)))
                                  eq_refl)))
             (dump_document math_document) math_document).
    + reflexivity.
    + apply validate_written.
    + reflexivity.
  - apply (proj2 (proj2 (proj2 (save_errors scenario_category (lit "python")
                                  (beside (File true true [lbrace])) eq_refl)))
             true [lbrace] ValidationError); reflexivity.
Defined.

(** ** [run]: more *)

Lemma text_ok_universal_newlines_upto (n : nat) (s : str) :
  length s <= n -> text_ok s = true -> text_ok (universal_newlines s) = true.
Proof.
  unfold text_ok. revert s; induction n as [|n IH]; intros s Hn Hs.
  - destruct s; [reflexivity|simpl in Hn; lia].
  - destruct s as [|c s]; [reflexivity|]. simpl in Hn, Hs.
    apply andb_true_iff in Hs as [Hc Hs]. simpl universal_newlines.
    destruct (c =? 13)%N.
    + destruct s as [|d s]; [reflexivity|]. simpl in Hn, Hs.
      apply andb_true_iff in Hs as [Hd Hs].
      destruct (d =? 10)%N.
      * change (forallb is_scalar (nl :: ?x)) with (forallb is_scalar x).
        apply IH; [lia|assumption].
      * change (forallb is_scalar (nl :: ?x)) with (forallb is_scalar x).
        apply IH; [simpl; lia|]. simpl. now rewrite Hd, Hs.
    + simpl. rewrite Hc. apply IH; [lia|assumption].
Qed.

Lemma text_ok_universal_newlines (s : str) :
  text_ok s = true -> text_ok (universal_newlines s) = true.
Proof. apply (text_ok_universal_newlines_upto (length s)). lia. Qed.

Section RunMore.

Variable lower : str -> str.


(** X17: the language the file name tells wins over the command line: with
    a recognized extension, whatever follows the path on the command line
    changes nothing.  With none recognized and nothing after the path, [run]
    does what it does for the language [python], after a warning, which it
    prints once the input file was read. *)
Theorem run_language (prog file_path : str) (fs : filesystem) :
  (forall l extra,
      get_code_lang file_path = Some l ->
      run lower (prog :: file_path :: extra) fs = run lower [prog; file_path] fs)
  /\ (forall text,
        get_code_lang file_path = None ->
        fst (get_file_content file_path fs) = inr text ->
        run lower [prog; file_path] fs
        = (Warning :: fst (run lower [prog; file_path; DEFAULT_LANGUAGE] fs),
           snd (run lower [prog; file_path; DEFAULT_LANGUAGE] fs)))
  /\ (forall e,
        fst (get_file_content file_path fs) = inl e ->
        run lower [prog; file_path] fs = ([Printed e], fs)).
Proof.
  split; [|split].
  - intros l extra H. unfold run, resolve_code_lang. cbn [length nth Nat.ltb Nat.leb].
    now rewrite H.
  - intros text H Hread. unfold run, resolve_code_lang.
    cbn [length nth Nat.ltb Nat.leb]. rewrite H.
    rewrite get_file_content_cases in *. cbn [fst] in Hread. rewrite Hread.
    destruct (parse_code text None) as [e|cat]; [reflexivity|].
    destruct (save_category_to_json cat (lower DEFAULT_LANGUAGE) fs) as [[e|[]] fs2];
      reflexivity.
  - intros e Hread. unfold run. cbn [length nth Nat.ltb Nat.leb].
    rewrite get_file_content_cases in *. cbn [fst] in Hread. now rewrite Hread.
Qed.




End RunMore.


Lemma run_language_witness :
  run ascii_lower [lit "converter.py"; lit "snippet.py"; lit "javascript"]
      (files scenario_text None)
  = run ascii_lower [lit "converter.py"; lit "snippet.py"] (files scenario_text None)
  /\ run ascii_lower [lit "converter.py"; lit "notes.txt"] notes_files
     = (Warning
          :: fst (run ascii_lower [lit "converter.py"; lit "notes.txt"; DEFAULT_LANGUAGE]
                    notes_files),
        snd (run ascii_lower [lit "converter.py"; lit "notes.txt"; DEFAULT_LANGUAGE]
               notes_files))
  /\ run ascii_lower [lit "converter.py"; lit "missing.txt"] notes_files
     = ([Printed FileNotFoundError], notes_files).
Proof.
  split; [|split].
  - apply (proj1 (run_language ascii_lower (lit "converter.py") (lit "snippet.py")
                    (files scenario_text None))
             (lit "python") [lit "javascript"]).
    reflexivity.
  - apply (proj1 (proj2 (run_language ascii_lower (lit "converter.py") (lit "notes.txt")
                           notes_files))
             scenario_text); reflexivity.
  - apply (proj2 (proj2 (run_language ascii_lower (lit "converter.py")
                           (lit "missing.txt") notes_files))
             FileNotFoundError). reflexivity.
Defined.



(** A text file that bears the name of its own output file is parsed, and
    then fails to load as a document: nothing is written. *)
Example run_input_is_output :
  let fs := fun p => if Str.eqb p (lit "python.json")
                     then Some (File true true scenario_text) else None in
  fst (run ascii_lower [lit "converter.py"; lit "python.json"] fs)
  = [Warning; Printed ValidationError]
  /\ snd (run ascii_lower [lit "converter.py"; lit "python.json"] fs) (lit "python.json")
     = Some (File true true scenario_text).
Proof. vm_compute. repeat split. Qed.

Section RunMerge.

Variable lower : str -> str.

(** X20: the whole way, into a document.  For an input file of Unicode text
    with at least 7 lines and an output file that holds a document, [run]
    prints nothing but the possible warning and leaves the output file
    holding that document with the parsed category merged into it; loading
    it gives the merged document. *)
Theorem run_merges_into_document (argv : list str) (fs : filesystem)
  (writable : bool) (content stored : str) (root : JSONModel) :
  2 <= length argv ->
  fs (nth 1 argv []) = Some (File true writable content) ->
  text_ok content = true ->
  7 <= length (split [nl] (universal_newlines content)) ->
  fs (output_of (lower (snd (resolve_code_lang argv)))) = Some (File true true stored) ->
  model_validate_json (universal_newlines stored) = inr root ->
  document_ok root = true ->
  exists cat,
    parse_code (universal_newlines content) None = inr cat
    /\ run lower argv fs
       = (fst (resolve_code_lang argv),
          update fs (output_of (lower (snd (resolve_code_lang argv))))
            (File true true (dump_document (merge root cat))))
    /\ model_validate_json (universal_newlines (dump_document (merge root cat)))
       = inr (merge root cat).
Proof.
  intros Hargv Hin Hok Hlines Hout Hval Hroot.
  destruct (parse_code (universal_newlines content) None) as [e|cat] eqn:Hparse.
  { exfalso. rewrite parse_code_eq in Hparse. cbv zeta in Hparse.
    destruct (Nat.ltb_spec (length (split [nl] (universal_newlines content))) 7);
      [lia|discriminate]. }
  assert (Hcat : category_ok cat = true).
  { apply (parse_code_ok (universal_newlines content)); [|assumption].
    now apply text_ok_universal_newlines. }
  exists cat. split; [reflexivity|]. split; [|apply validate_written].
  unfold run. destruct (Nat.ltb_spec (length argv) 2) as [?|_]; [lia|].
  rewrite get_file_content_cases, Hin.
  destruct (resolve_code_lang argv) as [warnings code_lang]. cbn [fst snd] in *.
  rewrite Hparse. unfold output_of in *.
  rewrite save_category_to_json_cases, Hout, Hval, model_dump_json_ok; [reflexivity|].
  now apply document_ok_merge.
Qed.

End RunMerge.

Lemma run_merges_into_document_witness :
  exists cat,
    parse_code (universal_newlines scenario_text) None = inr cat
    /\ run ascii_lower scenario_argv
         (files scenario_text (Some (dump_document math_document)))
       = (fst (resolve_code_lang scenario_argv),
          update (files scenario_text (Some (dump_document math_document)))
            (output_of (ascii_lower (snd (resolve_code_lang scenario_argv))))
            (File true true (dump_document (merge math_document cat))))
    /\ model_validate_json
         (universal_newlines (dump_document (merge math_document cat)))
       = inr (merge math_document cat).
Proof.
  apply (run_merges_into_document ascii_lower scenario_argv
           (files scenario_text (Some (dump_document math_document)))
           true scenario_text (dump_document math_document) math_document).
  - simpl. lia.
  - reflexivity.
  - reflexivity.
  - vm_compute. lia.
  - reflexivity.
  - apply validate_written.
  - reflexivity.
Defined.
